(** * Cactus: terminal session manager — registry, classifier and gateway

    A shallow embedding of [models.py], [terminal.py], [app.py] and the
    name-entry part of [screens.py].

    Conventions of the embedding:
    - a Python [str] is a [string]; its characters are the code points
      below 256;
    - a [datetime] is its POSIX timestamp in microseconds, a [Z] (the
      resolution of [datetime.now()]; in the range of present-day clocks
      the float returned by [.timestamp()] orders these exactly as [Z]
      does); the datetimes of the code are naive local ones: their
      difference is the difference of the wall-clock readings, which the
      UTC offset of the host's time zone gives ([local_time]); their
      equality is taken as the equality of the instants, from which it
      differs only for two instants that read the same on either side of
      a backward change of the offset;
    - [self.sessions] is a [list Session]; a Python reference to one of
      its elements is the element's index, so that what the loops write
      through one reference is seen through the other;
    - the tmux subprocesses, the clock and the file system are an
      explicit environment ([World]); the commands that the code runs
      through [subprocess.run] are logged ([Trace]); an exception that
      ends an operation is the answer [None]. *)

From stdpp Require Import gmap strings list sorting.
From Stdlib Require Import ZArith Ascii DecimalString.

Local Open Scope Z_scope.

(** ** Python string primitives *)

Module Str.

(** [sub in s] on strings: [sub] occurs in [s] as a contiguous run. *)
Fixpoint str_in (sub s : string) : bool :=
  String.prefix sub s ||
  match s with
  | EmptyString => false
  | String _ s' => str_in sub s'
  end.

(** Code points below 256 for which [str.isspace()] holds. *)
Definition isspace (c : ascii) : bool :=
  let n := nat_of_ascii c in
  ((9 <=? n) && (n <=? 13) || (28 <=? n) && (n <=? 32) ||
   (n =? 133) || (n =? 160))%nat.

Fixpoint lstrip (s : string) : string :=
  match s with
  | EmptyString => EmptyString
  | String c s' => if isspace c then lstrip s' else s
  end.

(** Drops trailing whitespace: a character is kept when it is not
    whitespace or something is kept after it. *)
Fixpoint rstrip (s : string) : string :=
  match s with
  | EmptyString => EmptyString
  | String c s' =>
      match rstrip s' with
      | EmptyString => if isspace c then EmptyString else String c EmptyString
      | r => String c r
      end
  end.

(** [s.strip()] *)
Definition strip (s : string) : string := rstrip (lstrip s).

(** [s.split(sep)] for a one-character separator: always at least one
    piece. *)
Fixpoint split (sep : ascii) (s : string) : list string :=
  match s with
  | EmptyString => [EmptyString]
  | String c s' =>
      if decide (c = sep) then EmptyString :: split sep s'
      else match split sep s' with
           | p :: ps => String c p :: ps
           | [] => [String c EmptyString]
           end
  end.

(** [s.split(sep, 1)] for a one-character separator: cut at the first
    separator only. *)
Fixpoint split1 (sep : ascii) (s : string) : list string :=
  match s with
  | EmptyString => [EmptyString]
  | String c s' =>
      if decide (c = sep) then [EmptyString; s']
      else match split1 sep s' with
           | p :: ps => String c p :: ps
           | [] => [String c EmptyString]
           end
  end.

(** [sep.join(l)] *)
Fixpoint join (sep : string) (l : list string) : string :=
  match l with
  | [] => EmptyString
  | [x] => x
  | x :: l' => x +:+ sep +:+ join sep l'
  end.

(** [l[-n:]] for [n > 0]. *)
Definition last_n {A} (n : nat) (l : list A) : list A :=
  drop (length l - n)%nat l.

(** [s.startswith(p)] *)
Definition startswith (s p : string) : bool := String.prefix p s.

(** [s[n:]] *)
Fixpoint str_drop (n : nat) (s : string) : string :=
  match n, s with
  | O, _ => s
  | S n', String _ s' => str_drop n' s'
  | S _, EmptyString => EmptyString
  end.

(** Truthiness of a string: non-empty. *)
Definition truthy (s : string) : bool :=
  match s with EmptyString => false | _ => true end.

End Str.

(** ** models.py *)

Inductive Status := WORKING | WAITING | READY | READ.

#[global] Instance Status_eq_dec : EqDecision Status.
Proof. solve_decision. Defined.

(** The value of each member of the [Status] enum. *)
Definition Status_value (s : Status) : string :=
  match s with
  | WORKING => "yellow"
  | WAITING => "red"
  | READY => "green"
  | READ => "white"
  end.

(** Random name generation *)
Definition ADJECTIVES : list string :=
  ["swift"; "bright"; "quiet"; "bold"; "cool"; "calm"; "wild"; "deep";
   "keen"; "wise"; "pure"; "warm"; "fresh"; "smooth"; "sharp"; "clear"].

Definition NOUNS : list string :=
  ["fox"; "hawk"; "wolf"; "bear"; "lynx"; "eagle"; "raven"; "otter";
   "spark"; "wave"; "node"; "pixel"; "cloud"; "forge"; "vertex"; "prism"].

Definition NUM_LINES_CAPTURE : nat := 8.

(** The [Session] dataclass. [last_content] defaults to the empty string,
    [status] to [READY], [is_active] to [False] and [last_visited] to the
    clock reading at construction. *)
Record Session := mkSession {
  name : string;
  path : string;
  tmux_session_name : string;
  last_content : string;
  status : Status;
  is_active : bool;
  last_visited : Z;
}.

#[global] Instance Session_eq_dec : EqDecision Session.
Proof. solve_decision. Defined.

(** [a == b] as [@dataclass] generates it: all fields are compared. *)
Definition Session_eq (a b : Session) : bool := bool_decide (a = b).

(** Field assignments. *)
Definition set_name (v : string) (s : Session) : Session :=
  mkSession v (path s) (tmux_session_name s) (last_content s) (status s)
    (is_active s) (last_visited s).
Definition set_tmux_session_name (v : string) (s : Session) : Session :=
  mkSession (name s) (path s) v (last_content s) (status s)
    (is_active s) (last_visited s).
Definition set_last_content (v : string) (s : Session) : Session :=
  mkSession (name s) (path s) (tmux_session_name s) v (status s)
    (is_active s) (last_visited s).
Definition set_status (v : Status) (s : Session) : Session :=
  mkSession (name s) (path s) (tmux_session_name s) (last_content s) v
    (is_active s) (last_visited s).
Definition set_is_active (v : bool) (s : Session) : Session :=
  mkSession (name s) (path s) (tmux_session_name s) (last_content s)
    (status s) v (last_visited s).
Definition set_last_visited (v : Z) (s : Session) : Session :=
  mkSession (name s) (path s) (tmux_session_name s) (last_content s)
    (status s) (is_active s) v.

(** ** The environment: subprocesses, clock, random source *)

Definition argv := list string.

Record CompletedProcess := mkCompleted { returncode : Z; stdout : string }.

(** What the outside world answers during one operation: the result of
    running a command, the successive readings of [datetime.now()], the
    successive raw outputs of the random generator, the names of the
    sessions that [libtmux] lists (it asks tmux by a command of its own,
    which is not one of [subprocess.run]), [os.path.expanduser];
    [str(Path(p).expanduser().resolve())], or [None] where it raises (a
    [~user] whose home directory is unknown, a loop of links); whether
    [CACTUS_DIR.mkdir(parents=True, exist_ok=True)] and
    [PATHS_FILE.write_text(...)] succeed; and the UTC offset of the local
    time zone, in microseconds, at an instant. *)
Record World := mkHost {
  subprocess_result : argv → CompletedProcess;
  clock : nat → Z;
  entropy : nat → nat;
  server_sessions : list string;
  expanduser : string → string;
  resolve_path : string → option string;
  mkdir_ok : bool;
  write_ok : bool;
  utcoffset : Z → Z;
}.

(** A host on which every path resolves to itself, the history file can
    be written, and local time is UTC. *)
Definition mkWorld (subprocess_result : argv → CompletedProcess)
    (clock : nat → Z) (entropy : nat → nat) (server_sessions : list string)
    (expanduser : string → string) : World :=
  mkHost subprocess_result clock entropy server_sessions expanduser
         Some true true (λ _, 0).

(** What an operation has consumed and issued so far: the commands run
    through [subprocess.run], the clock readings, the random draws. *)
Record Trace := mkTrace {
  calls : list argv;
  ticks : nat;
  draws : nat;
}.

Definition M (A : Type) : Type := World → Trace → A * Trace.

#[global] Instance M_ret : MRet M := λ A a _ t, (a, t).
#[global] Instance M_bind : MBind M := λ A B f m w t,
  let '(a, t') := m w t in f a w t'.

Definition start : Trace := mkTrace [] 0 0.

(** The environment of the running operation. *)
Definition ask : M World := λ w t, (w, t).

(** [subprocess.run(cmd, ...)] *)
Definition subprocess_run (cmd : argv) : M CompletedProcess := λ w t,
  (subprocess_result w cmd, mkTrace (calls t ++ [cmd]) (ticks t) (draws t)).

(** [datetime.now()] *)
Definition datetime_now : M Z := λ w t,
  (clock w (ticks t), mkTrace (calls t) (S (ticks t)) (draws t)).

(** [random.choice(seq)] on a non-empty list *)
Definition random_choice (seq : list string) : M string := λ w t,
  (default EmptyString (seq !! (entropy w (draws t) mod length seq)%nat),
   mkTrace (calls t) (ticks t) (S (draws t))).

Definition generate_random_name : M string :=
  adjective ← random_choice ADJECTIVES;
  noun ← random_choice NOUNS;
  mret (adjective +:+ "-" +:+ noun).

(** ** terminal.py: the status classifier *)

Definition confirmation_phrases : list string :=
  ["Would you like to proceed?"; "1. Yes"; "Do you want to"].

Definition detect_status (content last_content : string)
    (current_status : Status) : Status * bool :=
  if decide (content ≠ last_content) then (WORKING, true)
  else if Str.str_in ">" content then
    if decide (current_status ≠ READ)
    then (READY, bool_decide (current_status ≠ READY))
    else (READ, false)
  else if existsb (λ p, Str.str_in p content) confirmation_phrases
  then (WAITING, bool_decide (current_status ≠ WAITING))
  else (WORKING, bool_decide (current_status ≠ WORKING)).

(** ** terminal.py: the tmux gateway *)

Definition LF : ascii := ascii_of_nat 10.

Fixpoint for_each {A} (l : list A) (body : A → M unit) : M unit :=
  match l with
  | [] => mret ()
  | x :: l' => body x;; for_each l' body
  end.

Module TerminalClient.

Definition create_session (name path display_name : string) : M unit :=
  subprocess_run ["tmux"; "new-session"; "-d"; "-s"; name; "-c"; path];;
  subprocess_run ["tmux"; "set-option"; "-t"; name; "mouse"; "on"];;
  subprocess_run ["tmux"; "set-option"; "-t"; name; "status-left";
                  " " +:+ display_name +:+ " | "];;
  subprocess_run ["tmux"; "set-option"; "-t"; name; "status-right"; ""];;
  mret ().

Definition send_keys (session_name keys : string) : M unit :=
  subprocess_run ["tmux"; "send-keys"; "-t"; session_name; keys; "Enter"];;
  mret ().

(** Answers [false] when no client is attached, and switches nothing. *)
Definition switch_to_session (session_name : string) : M bool :=
  result ← subprocess_run ["tmux"; "list-clients"; "-F"; "#{client_tty}"];
  let clients :=
    filter (λ c, Is_true (Str.truthy c))
           (Str.split LF (Str.strip (stdout result))) in
  match clients with
  | [] => mret false
  | _ =>
      for_each clients (λ client,
        subprocess_run ["tmux"; "switch-client"; "-c"; client;
                        "-t"; session_name];;
        mret ());;
      mret true
  end.

Definition rename_session (old_name new_name : string) : M unit :=
  subprocess_run ["tmux"; "rename-session"; "-t"; old_name; new_name];;
  mret ().

Definition delete_session (session_name : string) : M unit :=
  subprocess_run ["tmux"; "kill-session"; "-t"; session_name];;
  mret ().

(** One turn of the loop of [get_pane_map] over the listed lines. *)
Definition pane_map_step (pane_map : gmap string string) (line : string)
    : gmap string string :=
  if Str.truthy line then
    match Str.split1 " " line with
    | [k; v] =>
        if decide (pane_map !! k = None) then <[k := v]> pane_map
        else pane_map
    | _ => pane_map
    end
  else pane_map.

Definition get_pane_map : M (gmap string string) :=
  result ← subprocess_run
    ["tmux"; "list-panes"; "-a"; "-F"; "#{session_name} #{pane_id}"];
  if decide (returncode result ≠ 0) then mret ∅
  else mret (foldl pane_map_step ∅
               (Str.split LF (Str.strip (stdout result)))).

Definition capture_pane (pane_id : string) : M (list string) :=
  result ← subprocess_run ["tmux"; "capture-pane"; "-p"; "-t"; pane_id];
  if decide (returncode result ≠ 0) then mret []
  else mret (Str.split LF (stdout result)).

End TerminalClient.

(** ** screens.py: what the dialogs hand back *)

Record NewSessionResult := mkResult { result_name : string; result_path : string }.

Module NewSessionScreen.

(** [on_input_submitted]: Enter in the name field only moves to the path
    field ([None]: the dialog stays open); Enter in the path field
    dismisses the dialog with the name, or a random one when the name is
    blank, and the path, or the home directory when it is blank. *)
Definition on_input_submitted (input_id name_value path_value : string)
    : M (option NewSessionResult) :=
  if decide (input_id = "name") then mret None
  else
    name ← (if Str.truthy (Str.strip name_value)
            then mret (Str.strip name_value)
            else generate_random_name);
    let path := if Str.truthy (Str.strip path_value)
                then Str.strip path_value else "~" in
    mret (Some (mkResult name path)).

End NewSessionScreen.

Module RenameSessionScreen.

Definition on_input_submitted (name_value : string) : option string :=
  let new_name := Str.strip name_value in
  if Str.truthy new_name then Some new_name else None.

End RenameSessionScreen.

(** ** models.py: the time label *)

(** [str(n)] on an integer. *)
Definition str_of_int (n : Z) : string := NilZero.string_of_int (Z.to_int n).

(** The naive local datetime of an instant, as microseconds of wall
    clock: what [datetime.now()] holds when the POSIX time is [instant]. *)
Definition local_time (w : World) (instant : Z) : Z :=
  instant + utcoffset w instant.

(** [format_time_ago]: the two datetimes are naive, so [-] subtracts
    their wall-clock readings; [int(...)] cuts the elapsed seconds
    towards zero (for spans under a century the float of
    [total_seconds()] cuts to the same whole number as the microseconds
    do), [//] is the floor division. *)
Definition format_time_ago (last_visited : Z) : M string :=
  w ← ask;
  now ← datetime_now;
  let total_seconds :=
    (local_time w now - local_time w last_visited) `quot` 1000000 in
  if total_seconds <? 60 then mret "now"
  else if total_seconds <? 3600
  then mret (str_of_int (total_seconds `div` 60) +:+ "m")
  else if total_seconds <? 86400
  then mret (str_of_int (total_seconds `div` 3600) +:+ "h")
  else if total_seconds <? 604800
  then mret (str_of_int (total_seconds `div` 86400) +:+ "d")
  else mret (str_of_int (total_seconds `div` 604800) +:+ "w").

(** ** models.py: the path history file *)

Module Lines.

Definition CR : ascii := ascii_of_nat 13.

(** What reading a file in text mode does to line ends: a carriage
    return, alone or before a line feed, reads as one line feed. *)
Fixpoint universal_newlines (s : string) : string :=
  match s with
  | EmptyString => EmptyString
  | String c s' =>
      if decide (c = CR) then
        match s' with
        | String d s'' =>
            if decide (d = LF) then String LF (universal_newlines s'')
            else String LF (universal_newlines s')
        | EmptyString => String LF EmptyString
        end
      else String c (universal_newlines s')
  end.

(** The code points below 256 at which [str.splitlines()] cuts. *)
Definition is_linebreak (c : ascii) : bool :=
  let n := nat_of_ascii c in
  ((10 <=? n) && (n <=? 13) || (28 <=? n) && (n <=? 30) || (n =? 133))%nat.

(** [s.splitlines()]: the lines without their ends; a carriage return
    and the line feed after it are one line end; no empty line after the
    last line end. *)
Fixpoint splitlines (s : string) : list string :=
  match s with
  | EmptyString => []
  | String c s' =>
      if is_linebreak c then
        if decide (c = CR) then
          match s' with
          | String d s'' =>
              if decide (d = LF) then EmptyString :: splitlines s''
              else EmptyString :: splitlines s'
          | EmptyString => [EmptyString]
          end
        else EmptyString :: splitlines s'
      else
        match splitlines s' with
        | [] => [String c EmptyString]
        | p :: ps => String c p :: ps
        end
  end.

End Lines.

(** The file [~/.cactus/paths.txt]: absent, present but failing to read
    (any exception of [read_text]), or present with a text. Writing and
    unlinking are taken to succeed. *)
Inductive PathsFile :=
  | Missing
  | Unreadable
  | Text (content : string).

(** [l.remove(x)] on a list of strings that holds [x]: drops the first
    [x]. *)
Fixpoint remove_first (x : string) (l : list string) : list string :=
  match l with
  | [] => []
  | y :: l' => if decide (y = x) then l' else y :: remove_first x l'
  end.

Section path_history.
(** [str(Path(p).expanduser().resolve())], which depends on the home
    directory, the working directory and the links of the file system. *)
Context (resolve : string → string).

Definition load_paths (file : PathsFile) : list string :=
  match file with
  | Missing => []
  | Unreadable => []
  | Text content =>
      Str.strip <$>
        filter (λ line, Is_true (Str.truthy (Str.strip line)))
               (Lines.splitlines (Lines.universal_newlines content))
  end.

Definition write_paths (existing : list string) : PathsFile :=
  Text (Str.join (String LF EmptyString) existing +:+ String LF EmptyString).

Definition save_path (path : string) (file : PathsFile) : PathsFile :=
  let existing := load_paths file in
  let normalized := resolve path in
  if existsb (λ p, bool_decide (resolve p = normalized)) existing then file
  else write_paths (path :: existing).

Definition delete_path (path : string) (file : PathsFile) : PathsFile :=
  let existing := load_paths file in
  if decide (path ∈ existing) then
    match remove_first path existing with
    | [] => Missing
    | existing' => write_paths existing'
    end
  else file.
End path_history.

(** [save_path] with its exceptions, as [action_new_session] runs it:
    [None] when the call raises, which it does when the directory cannot
    be made, when [path] or a stored path met by the loop before a match
    does not resolve, or when the file cannot be written. [save_path]
    above is this function where every path resolves and the file can be
    written. *)
Fixpoint known_place (resolve : string → option string)
    (normalized : string) (existing : list string) : option bool :=
  match existing with
  | [] => Some false
  | p :: existing' =>
      match resolve p with
      | None => None
      | Some place =>
          if decide (place = normalized) then Some true
          else known_place resolve normalized existing'
      end
  end.

Definition save_path_raising (w : World) (path : string)
    (file : PathsFile) : option PathsFile :=
  if mkdir_ok w then
    let existing := load_paths file in
    match resolve_path w path with
    | None => None
    | Some normalized =>
        match known_place (resolve_path w) normalized existing with
        | None => None
        | Some true => Some file
        | Some false =>
            if write_ok w then Some (write_paths (path :: existing))
            else None
        end
    end
  else None.

(** ** app.py: the registry *)

(** [list.sort(key=...)]: a stable sort that compares keys with [<]. A
    list has one stable sorted arrangement; it is written here by
    insertion, an element entering before the first one that is not
    smaller than it. *)
Section list_sort.
Context {A K : Type} (key : A → K) (lt : K → K → bool).

Fixpoint insert_sorted (x : A) (l : list A) : list A :=
  match l with
  | [] => [x]
  | y :: l' =>
      if lt (key y) (key x) then y :: insert_sorted x l'
      else x :: y :: l'
  end.

Definition list_sort (l : list A) : list A := foldr insert_sorted [] l.

(** [x] may stand before [y] in a sorted list: [y]'s key is not
    smaller. *)
Definition may_precede (x y : A) : Prop := lt (key y) (key x) = false.
End list_sort.

(** [<] on pairs of numbers: lexicographic. *)
Definition tuple_lt (a b : Z * Z) : bool :=
  (a.1 <? b.1) || ((a.1 =? b.1) && (a.2 <? b.2)).

(** [d.get(k, default)] on a dict given by its items. *)
Definition dict_get {K V} `{EqDecision K} (d : list (K * V)) (k : K)
    (dflt : V) : V :=
  match list_find (λ kv, kv.1 = k) d with
  | Some (_, kv) => kv.2
  | None => dflt
  end.

(** [l.index(x)]: the first position holding an element equal to [x]. *)
Definition list_index (x : Session) (l : list Session) : option nat :=
  fst <$> list_find (λ s, Is_true (Session_eq s x)) l.

(** [l.remove(x)]: drops the first element equal to [x]; [None] stands
    for the [ValueError] raised when there is none. *)
Definition list_remove (x : Session) (l : list Session)
    : option (list Session) :=
  k ← list_index x l; Some (delete k l).

Record CactusApp := mkApp {
  sessions : list Session;
  hint : string;
}.

Module CactusApp.

Definition STATUS_PRIORITY : list (Status * Z) :=
  [(WAITING, 1); (WORKING, 2); (READY, 3); (READ, 4)].

Definition init : CactusApp :=
  mkApp [] "In another terminal: tmux attach -t <session-name>".

(** [self.STATUS_PRIORITY.get(status, 99)] *)
Definition priority (st : Status) : Z := dict_get STATUS_PRIORITY st 99.

Definition sort_key (s : Session) : Z * Z :=
  (priority (status s), - last_visited s).

Definition _sort_sessions (l : list Session) : list Session :=
  list_sort sort_key tuple_lt l.

(** [_refresh_list]: sorts the registry and rebuilds the list view from
    it, in that order. *)
Definition _refresh_list (app : CactusApp) : CactusApp :=
  mkApp (_sort_sessions (sessions app)) (hint app).

(** The loop of [_load_existing_sessions] over [self.server.sessions]. *)
Fixpoint load_loop (names : list string) (l : list Session)
    : M (list Session) :=
  match names with
  | [] => mret l
  | n :: names' =>
      if Str.startswith n "claude-" then
        now ← datetime_now;
        load_loop names'
          (l ++ [mkSession (Str.str_drop 7 n) "" n "" READY false now])
      else load_loop names' l
  end.

(** [_load_existing_sessions]. [self.server.sessions] is [libtmux]'s
    property: it asks the tmux server for its sessions by a command that
    [libtmux] runs itself, outside [subprocess.run] and so outside the
    log of [Trace]; what it answers is [server_sessions]. *)
Definition _load_existing_sessions (app : CactusApp) : M CactusApp :=
  w ← ask;
  l ← load_loop (server_sessions w) (sessions app);
  mret (_refresh_list (mkApp l (hint app))).

(** The body of the loop of [_update_status] for one session: the session
    as the turn leaves it, and whether its status changed. *)
Definition update_one (pane_map : gmap string string) (s : Session)
    : M (Session * bool) :=
  match pane_map !! tmux_session_name s with
  | None => mret (s, false)
  | Some pane_id =>
      if Str.truthy pane_id then
        lines ← TerminalClient.capture_pane pane_id;
        match lines with
        | [] => mret (s, false)
        | _ =>
            let content :=
              Str.join (String LF EmptyString)
                       (Str.last_n NUM_LINES_CAPTURE lines) in
            let '(new_status, status_changed) :=
              detect_status content (last_content s) (status s) in
            let s1 := if decide (content ≠ last_content s)
                      then set_last_content content s else s in
            if status_changed then mret (set_status new_status s1, true)
            else mret (s1, false)
        end
      else mret (s, false)
  end.

Fixpoint update_loop (pane_map : gmap string string) (l : list Session)
    : M (list Session * bool) :=
  match l with
  | [] => mret ([], false)
  | s :: l' =>
      '(s', c) ← update_one pane_map s;
      '(l'', changed) ← update_loop pane_map l';
      mret (s' :: l'', c || changed)
  end.

Definition _update_status (app : CactusApp) : M CactusApp :=
  pane_map ← TerminalClient.get_pane_map;
  '(l, changed) ← update_loop pane_map (sessions app);
  if changed : bool then mret (_refresh_list (mkApp l (hint app)))
  else mret (mkApp l (hint app)).

(** [action_new_session], from the moment the dialog has answered
    [result], with [file] the path history at that moment. The answer is
    the application and the path history afterwards, or [None] when
    [save_path] raises: the exception leaves the worker before any tmux
    command is run and before the registry is touched. *)
Definition action_new_session (result : option NewSessionResult)
    (app : CactusApp) (file : PathsFile)
    : M (option (CactusApp * PathsFile)) :=
  match result with
  | None => mret (Some (app, file))
  | Some result =>
      w ← ask;
      let tmux_name := "claude-" +:+ result_name result in
      let expanded_path := expanduser w (result_path result) in
      match save_path_raising w (result_path result) file with
      | None => mret None
      | Some file' =>
          TerminalClient.create_session tmux_name expanded_path
                                        (result_name result);;
          TerminalClient.send_keys tmux_name "claude";;
          now ← datetime_now;
          let l := (set_is_active false <$> sessions app) ++
                   [mkSession (result_name result) expanded_path tmux_name
                              "" READY true now] in
          let app1 := _refresh_list (mkApp l (hint app)) in
          ok ← TerminalClient.switch_to_session tmux_name;
          if ok : bool
          then mret (Some (mkApp (sessions app1)
                                 ("Switched to: " +:+ tmux_name), file'))
          else mret (Some (mkApp (sessions app1)
                                 ("Attach: tmux attach -t " +:+ tmux_name),
                           file'))
      end
  end.

(** The session under the cursor of the list view: the view shows the
    registry in its order, so the cursor is an index into it. *)
Definition highlighted_session (highlighted : option nat) (app : CactusApp)
    : option (nat * Session) :=
  i ← highlighted; session ← sessions app !! i; Some (i, session).

(** [action_rename_session], [new_name] being the dialog's answer. *)
Definition action_rename_session (highlighted : option nat)
    (new_name : option string) (app : CactusApp) : M CactusApp :=
  match highlighted_session highlighted app with
  | None => mret app
  | Some (i, session) =>
      match new_name with
      | None => mret app
      | Some new_name =>
          if negb (Str.truthy new_name) || bool_decide (new_name = name session)
          then mret app
          else
            let new_tmux_name := "claude-" +:+ new_name in
            TerminalClient.rename_session (tmux_session_name session)
                                          new_tmux_name;;
            let l := alter (λ s, set_tmux_session_name new_tmux_name
                                   (set_name new_name s)) i (sessions app) in
            mret (mkApp (sessions (_refresh_list (mkApp l (hint app))))
                        ("Renamed to: " +:+ new_name))
      end
  end.

(** [for s in self.sessions: s.is_active = (s == session)], where
    [session] is the element at index [i]: each turn compares with the
    session as the turns before have left it. *)
Definition mark_active_loop (i : nat) (l : list Session) : list Session :=
  foldl (λ acc k,
           match acc !! k, acc !! i with
           | Some s, Some session =>
               <[k := set_is_active (Session_eq s session) s]> acc
           | _, _ => acc
           end)
        l (seq 0 (length l)).

Definition demote_ready (s : Session) : Session :=
  if decide (status s = READY) then set_status READ s else s.

Definition action_switch_session (highlighted : option nat)
    (app : CactusApp) : M CactusApp :=
  match highlighted_session highlighted app with
  | None => mret app
  | Some (i, session) =>
      ok ← TerminalClient.switch_to_session (tmux_session_name session);
      if ok : bool then
        let l1 := mark_active_loop i (sessions app) in
        now ← datetime_now;
        let l2 := alter (set_last_visited now) i l1 in
        let l3 := alter demote_ready i l2 in
        mret (mkApp (sessions (_refresh_list (mkApp l3 (hint app))))
                    ("Switched to: " +:+ tmux_session_name session))
      else
        mret (mkApp (sessions app)
                    ("No tmux client! Run: tmux attach -t " +:+
                     tmux_session_name session))
  end.

(** The first half of [action_delete_session]: with more than one
    session, switch to another one. [None] stands for an exception. *)
Definition switch_away (i : nat) (session : Session) (app : CactusApp)
    : M (option CactusApp) :=
  if decide (1 < length (sessions app))%nat then
    match list_index session (sessions app) with
    | None => mret None
    | Some idx =>
        let t := if decide (idx = 0%nat) then 1%nat else 0%nat in
        match sessions app !! t with
        | None => mret None
        | Some target =>
            ok ← TerminalClient.switch_to_session (tmux_session_name target);
            if ok : bool then
              let l := alter (set_is_active true) t
                             (set_is_active false <$> sessions app) in
              mret (Some (mkApp l ("Switched to: " +:+
                                   tmux_session_name target)))
            else mret (Some app)
        end
    end
  else mret (Some app).

Definition action_delete_session (highlighted : option nat)
    (app : CactusApp) : M (option CactusApp) :=
  match highlighted_session highlighted app with
  | None => mret (Some app)
  | Some (i, session) =>
      app1 ← switch_away i session app;
      match app1 with
      | None => mret None
      | Some app1 =>
          TerminalClient.delete_session (tmux_session_name session);;
          match sessions app1 !! i ≫= λ session', list_remove session' (sessions app1) with
          | None => mret None
          | Some l => mret (Some (_refresh_list (mkApp l (hint app1))))
          end
      end
  end.

End CactusApp.

(** ** screens.py: the path picker route of the new-session dialog *)

(** [NewSessionScreen._show_path_picker], [selected] being what the
    picker answered. *)
Definition _show_path_picker (selected : option string)
    (name_value : string) : M (option NewSessionResult) :=
  match selected with
  | None => mret None
  | Some selected =>
      if Str.truthy selected then
        name ← (if Str.truthy (Str.strip name_value)
                then mret (Str.strip name_value)
                else generate_random_name);
        mret (Some (mkResult name selected))
      else mret None
  end.

(** ** Environments of the examples *)

(** A tmux with one client attached on [tty]. *)
Definition attached (tty : string) : argv → CompletedProcess := λ cmd,
  match cmd with
  | [_; "list-clients"; _; _] => mkCompleted 0 (tty +:+ String LF "")
  | _ => mkCompleted 0 ""
  end.

(** A tmux with no client attached. *)
Definition detached : argv → CompletedProcess := λ _, mkCompleted 0 "".

(** A world whose clock stands at [now] and whose tmux server lists the
    sessions [names]. *)
Definition example_world (answers : argv → CompletedProcess) (now : Z)
    (names : list string) : World :=
  mkWorld answers (λ _, now) (λ _, 0%nat) names id.

(** ** Predicates of the statements *)

(** The sessions of a list that are flagged active. *)
Definition active_sessions (l : list Session) : list Session :=
  filter (λ s, is_active s = true) l.

(** [a] and [b] agree on every field other than [is_active]. *)
Definition same_but_active (a b : Session) : Prop :=
  set_is_active true a = set_is_active true b.

(** No other session of [l] agrees with the one at index [i] on every
    field other than [is_active]. *)
Definition no_twin (i : nat) (l : list Session) : Prop :=
  ∀ j s t, j ≠ i → l !! j = Some s → l !! i = Some t → ¬ same_but_active s t.

(** Among the listed [lines], the first one of the shape [k v] (the name
    [k] free of spaces, then one space, then [v]) is the line number [i]. *)
Definition first_listed (lines : list string) (k v : string) : Prop :=
  (∀ pre post, k ≠ pre +:+ " " +:+ post) ∧
  ∃ i : nat, lines !! i = Some (k +:+ " " +:+ v) ∧
    ∀ (j : nat) v', (j < i)%nat → lines !! j ≠ Some (k +:+ " " +:+ v').

(** ** Predicates of the further properties *)

(** [a] and [b] agree on everything a poll leaves alone. *)
Definition same_identity (a b : Session) : Prop :=
  name a = name b ∧ path a = path b ∧
  tmux_session_name a = tmux_session_name b ∧
  is_active a = is_active b ∧ last_visited a = last_visited b.

(** The name that the new-session dialog settles on for the text
    [name_value] of its name field, between [t] and [t']: the text
    stripped, nothing being drawn; or, when nothing is left of the text,
    the adjective and the noun of the next two draws around a hyphen. *)
Definition dialog_named (name_value : string) (w : World) (t t' : Trace)
    (name : string) : Prop :=
  if decide (Str.strip name_value = "") then
    ∃ adjective noun,
      ADJECTIVES !! (entropy w (draws t) mod 16)%nat = Some adjective ∧
      NOUNS !! (entropy w (S (draws t)) mod 16)%nat = Some noun ∧
      name = adjective +:+ "-" +:+ noun ∧
      t' = mkTrace (calls t) (ticks t) (S (S (draws t)))
  else name = Str.strip name_value ∧ t' = t.

(** The tmux name of a session is its name behind the fixed prefix. *)
Definition handle_ok (s : Session) : Prop :=
  tmux_session_name s = "claude-" +:+ name s.

(** The order in which [_sort_sessions] leaves a list. *)
Definition view_sorted (l : list Session) : Prop :=
  StronglySorted (may_precede CactusApp.sort_key tuple_lt) l.

(** Every character of [s] passes the test [f]. *)
Fixpoint str_forall (f : ascii → bool) (s : string) : bool :=
  match s with
  | EmptyString => true
  | String c s' => f c && str_forall f s'
  end.

(** A path as the dialogs hand it over: not empty, no white space at
    either end, no line end inside. *)
Definition clean_path (p : string) : Prop :=
  p ≠ "" ∧ Str.strip p = p ∧
  str_forall (λ c, negb (Lines.is_linebreak c)) p = true.

(** * Properties *)

(** ** Substring test *)

Lemma prefix_app (p s : string) :
  String.prefix p s = true ↔ ∃ post, s = p +:+ post.
Proof.
  revert p. induction s as [|c s IH]; intros [|d p]; simpl.
  - split; [by exists EmptyString | done].
  - split; [done | by intros [? ?]].
  - split; [intros _; by exists (String c s) | done].
  - destruct (Ascii.ascii_dec d c) as [->|Hne].
    + rewrite IH. split.
      * intros [post ->]. by exists post.
      * intros [post [= ->]]. by exists post.
    + split; [done | intros [post [=]]; congruence].
Qed.

Lemma str_in_occurs (sub s : string) :
  Str.str_in sub s = true ↔ ∃ pre post, s = pre +:+ sub +:+ post.
Proof.
  induction s as [|c s IH]; cbn [Str.str_in].
  - rewrite orb_false_r, prefix_app. split.
    + intros [post ->]. by exists EmptyString, post.
    + intros ([|? ?] & post & H); [by exists post | done].
  - rewrite orb_true_iff, prefix_app, IH. split.
    + intros [[post ->]|(pre & post & ->)].
      * by exists EmptyString, post.
      * by exists (String c pre), post.
    + intros ([|d pre] & post & H).
      * left. by exists post.
      * right. exists pre, post. by injection H.
Qed.

(** ** The classifier *)

(** C1: whenever the sample differs from the previous sample,
    [detect_status] answers [(WORKING, True)], whatever the current status
    is. *)
Theorem detect_status_changed_content (sample previousSample : string)
    (currentState : Status) :
  sample ≠ previousSample →
  detect_status sample previousSample currentState = (WORKING, true).
Proof. intros Hne. unfold detect_status. by rewrite decide_True. Qed.

Lemma detect_status_changed_content_witness :
  "$ make" ≠ "$ " ∧ detect_status "$ make" "$ " WAITING = (WORKING, true).
Proof.
  split; [done|]. by apply (detect_status_changed_content "$ make" "$ " WAITING).
Defined.

(** C2: an unchanged sample in which the character [>] occurs leaves a
    READ session READ and reports no change. *)
Theorem detect_status_read_sticky (sample : string) :
  (∃ pre post, sample = pre +:+ ">" +:+ post) →
  detect_status sample sample READ = (READ, false).
Proof.
  intros Hgt%str_in_occurs. unfold detect_status.
  rewrite decide_False by (by intros ?). by rewrite Hgt.
Qed.

Lemma detect_status_read_sticky_witness :
  (∃ pre post, "done. > " = pre +:+ ">" +:+ post) ∧
  detect_status "done. > " "done. > " READ = (READ, false).
Proof.
  assert (H : ∃ pre post, "done. > " = pre +:+ ">" +:+ post)
    by (by exists "done. ", " ").
  split; [exact H|]. exact (detect_status_read_sticky "done. > " H).
Defined.

(** C6: an unchanged sample in which [>] occurs, on a session that is not
    READ, is classified READY, and the change flag is set exactly when
    the session was not READY already; this holds also when a
    confirmation phrase occurs in the sample, so the result is never
    WAITING there. *)
Theorem detect_status_prompt_first (sample : string) (currentState : Status) :
  (∃ pre post, sample = pre +:+ ">" +:+ post) →
  currentState ≠ READ →
  detect_status sample sample currentState
    = (READY, bool_decide (currentState ≠ READY)) ∧
  (∀ changed, detect_status sample sample currentState = (READY, changed) →
     (changed = true ↔ currentState ≠ READY)) ∧
  (existsb (λ p, Str.str_in p sample) confirmation_phrases = true →
     (detect_status sample sample currentState).1 ≠ WAITING).
Proof.
  intros Hgt%str_in_occurs Hcur.
  assert (Heq : detect_status sample sample currentState
                = (READY, bool_decide (currentState ≠ READY))).
  { unfold detect_status. rewrite decide_False by (by intros ?).
    rewrite Hgt. by rewrite decide_True. }
  split; [exact Heq|]. split.
  - intros changed. rewrite Heq. intros [= <-]. apply bool_decide_eq_true.
  - intros _. by rewrite Heq.
Qed.

Lemma detect_status_prompt_first_witness :
  let sample := "Would you like to proceed? [y/n] > " in
  (∃ pre post, sample = pre +:+ ">" +:+ post) ∧ WAITING ≠ READ ∧
  existsb (λ p, Str.str_in p sample) confirmation_phrases = true ∧
  detect_status sample sample WAITING = (READY, true).
Proof.
  intros sample.
  assert (H : ∃ pre post, sample = pre +:+ ">" +:+ post)
    by (by exists "Would you like to proceed? [y/n] ", " ").
  assert (Hw : WAITING ≠ READ) by done.
  split; [exact H|]. split; [exact Hw|]. split; [reflexivity|].
  exact (proj1 (detect_status_prompt_first sample WAITING H Hw)).
Defined.

(** ** Sorting *)

Section list_sort_facts.
Context {A K : Type} (key : A → K) (lt : K → K → bool).

Hypothesis lt_asym : ∀ a b, lt a b = true → lt b a = false.
Hypothesis not_lt_trans :
  ∀ a b c, lt b a = false → lt c b = false → lt c a = false.

Lemma insert_sorted_perm x l : insert_sorted key lt x l ≡ₚ x :: l.
Proof.
  induction l as [|y l IH]; simpl; [done|].
  destruct (lt (key y) (key x)); [|done].
  rewrite IH. apply perm_swap.
Qed.

Lemma list_sort_perm l : list_sort key lt l ≡ₚ l.
Proof.
  induction l as [|x l IH]; simpl; [done|].
  by rewrite insert_sorted_perm, IH.
Qed.

Lemma insert_sorted_sorted x l :
  StronglySorted (may_precede key lt) l →
  StronglySorted (may_precede key lt) (insert_sorted key lt x l).
Proof.
  induction 1 as [|y l Hl IH Hy]; simpl.
  - repeat constructor.
  - destruct (lt (key y) (key x)) eqn:Hlt.
    + constructor; [done|].
      rewrite insert_sorted_perm. constructor; [|done].
      by apply lt_asym.
    + constructor; [by constructor|].
      constructor; [done|].
      eapply Forall_impl; [exact Hy|].
      intros z Hz. unfold may_precede in *. by eapply not_lt_trans.
Qed.

Lemma list_sort_sorted l :
  StronglySorted (may_precede key lt) (list_sort key lt l).
Proof.
  induction l as [|x l IH]; simpl; [constructor|].
  by apply insert_sorted_sorted.
Qed.

(** Stability: elements with one and the same key keep their order. *)
Lemma list_sort_stable `{EqDecision K} (k : K) l :
  filter (λ x, key x = k) (list_sort key lt l) = filter (λ x, key x = k) l.
Proof.
  assert (Hirr : ∀ a, lt a a = false).
  { intros a. destruct (lt a a) eqn:E; [|done].
    by rewrite (lt_asym _ _ E) in E. }
  assert (Hins : ∀ x l, filter (λ x, key x = k) (insert_sorted key lt x l)
                        = filter (λ x, key x = k) (x :: l)).
  { intros x. induction l0 as [|y l0 IH]; simpl; [done|].
    destruct (lt (key y) (key x)) eqn:Hlt; [|done].
    rewrite !filter_cons in *. rewrite IH.
    destruct (decide (key y = k)) as [Hy|]; [|done].
    destruct (decide (key x = k)) as [Hx|]; [|done].
    rewrite Hy, Hx, Hirr in Hlt. done. }
  induction l as [|x l IH]; simpl; [done|].
  rewrite Hins, !filter_cons. by rewrite IH.
Qed.
End list_sort_facts.

Lemma StronglySorted_weaken {A} (R R' : A → A → Prop) (l : list A) :
  (∀ x y, R x y → R' x y) → StronglySorted R l → StronglySorted R' l.
Proof.
  intros HR. induction 1 as [|x l Hl IH Hx]; constructor; [done|].
  eapply Forall_impl; [exact Hx | auto].
Qed.

Lemma tuple_lt_asym (a b : Z * Z) : tuple_lt a b = true → tuple_lt b a = false.
Proof. destruct a, b. unfold tuple_lt. simpl. lia. Qed.

Lemma tuple_not_lt_trans (a b c : Z * Z) :
  tuple_lt b a = false → tuple_lt c b = false → tuple_lt c a = false.
Proof. destruct a, b, c. unfold tuple_lt. simpl. lia. Qed.

Lemma sort_sessions_perm l : CactusApp._sort_sessions l ≡ₚ l.
Proof. apply list_sort_perm. Qed.

Lemma priority_inj (a b : Status) :
  CactusApp.priority a = CactusApp.priority b → a = b.
Proof. by destruct a, b. Qed.

(** C5: the sorted view holds the sessions of the registry, ordered by
    status priority (WAITING before WORKING before READY before READ)
    and, among sessions of one status, from the latest [last_visited] to
    the earliest. *)
Theorem sorted_view_order (app : CactusApp) :
  let view := sessions (CactusApp._refresh_list app) in
  view ≡ₚ sessions app ∧
  StronglySorted
    (λ a b, CactusApp.priority (status a) < CactusApp.priority (status b) ∨
            (status a = status b ∧ last_visited b ≤ last_visited a))
    view ∧
  CactusApp.priority WAITING < CactusApp.priority WORKING
    < CactusApp.priority READY ∧
  CactusApp.priority READY < CactusApp.priority READ.
Proof.
  simpl. split; [apply sort_sessions_perm|]. split; [|done].
  eapply StronglySorted_weaken;
    [|apply (list_sort_sorted CactusApp.sort_key tuple_lt);
      [apply tuple_lt_asym | apply tuple_not_lt_trans]].
  intros a b. unfold may_precede, tuple_lt, CactusApp.sort_key. simpl.
  intros H.
  destruct (decide (CactusApp.priority (status a)
                    < CactusApp.priority (status b))) as [|Hge]; [by left|].
  right. assert (Heq : CactusApp.priority (status a)
                       = CactusApp.priority (status b)) by lia.
  split; [by apply priority_inj | lia].
Qed.

(** ** The pane map *)

Lemma split1_cases (sep : ascii) (line : string) :
  (Str.split1 sep line = [line] ∧
   ∀ pre post, line ≠ pre +:+ String sep post) ∨
  (∃ k v, Str.split1 sep line = [k; v] ∧ line = k +:+ String sep v ∧
          ∀ pre post, k ≠ pre +:+ String sep post).
Proof.
  induction line as [|c line IH]; simpl.
  - left. split; [done|]. by intros [|??] ?.
  - destruct (decide (c = sep)) as [->|Hne].
    + right. exists EmptyString, line. split; [done|]. split; [done|].
      by intros [|??] ?.
    + destruct IH as [[-> Hno]|(k & v & -> & -> & Hno)].
      * left. split; [done|]. intros [|d pre] post; simpl; intros [=].
        -- done.
        -- by eapply Hno.
      * right. exists (String c k), v. split; [done|]. split; [done|].
        intros [|d pre] post; simpl; intros [=].
        -- done.
        -- by eapply Hno.
Qed.

Lemma cut_unique (sep : ascii) (k k' v v' : string) :
  (∀ pre post, k ≠ pre +:+ String sep post) →
  (∀ pre post, k' ≠ pre +:+ String sep post) →
  k +:+ String sep v = k' +:+ String sep v' → k = k' ∧ v = v'.
Proof.
  revert k'. induction k as [|c k IH]; intros [|c' k'] Hk Hk'; simpl.
  - by intros [=].
  - intros [= <- ->]. by destruct (Hk' EmptyString k').
  - intros [= -> <-]. by destruct (Hk EmptyString k).
  - intros [= -> Heq]. destruct (IH k') as [-> ->]; [| |done|done].
    + intros pre post ->. by apply (Hk (String c' pre) post).
    + intros pre post ->. by apply (Hk' (String c' pre) post).
Qed.

Lemma pane_map_step_lookup (m : gmap string string) (line k v : string) :
  (∀ pre post, k ≠ pre +:+ " " +:+ post) →
  TerminalClient.pane_map_step m line !! k = Some v ↔
  m !! k = Some v ∨ (m !! k = None ∧ line = k +:+ " " +:+ v).
Proof.
  intros Hk. unfold TerminalClient.pane_map_step.
  destruct (split1_cases " " line) as [[Hs Hno]|(k0 & v0 & Hs & -> & Hk0)].
  - rewrite Hs. assert (Hm : ∀ o : gmap string string,
      (if Str.truthy line then o else o) = o) by (by destruct (Str.truthy _)).
    rewrite Hm. split; [by left|]. intros [?|[_ ->]]; [done|].
    by destruct (Hno k v).
  - rewrite Hs. assert (Ht : Str.truthy (k0 +:+ String " " v0) = true)
      by (by destruct k0).
    rewrite Ht. destruct (decide (m !! k0 = None)) as [Hnone|Hsome].
    + destruct (decide (k = k0)) as [->|Hne].
      * rewrite lookup_insert_eq, Hnone. split.
        -- intros [= ->]. by right.
        -- intros [?|[_ Heq]]; [done|].
           by destruct (cut_unique " " k0 k0 v0 v Hk0 Hk0 Heq) as [_ ->].
      * rewrite lookup_insert_ne by done. split; [by left|].
        intros [?|[_ Heq]]; [done|].
        by destruct (cut_unique " " k0 k v0 v Hk0 Hk Heq) as [-> _].
    + split; [by left|]. intros [?|[Hnone Heq]]; [done|].
      destruct (cut_unique " " k0 k v0 v Hk0 Hk Heq) as [-> _]. done.
Qed.

Lemma pane_map_step_keeps (m : gmap string string) (line k v : string) :
  m !! k = Some v → TerminalClient.pane_map_step m line !! k = Some v.
Proof.
  intros Hm. unfold TerminalClient.pane_map_step.
  destruct (Str.truthy line); [|done].
  destruct (Str.split1 " " line) as [|k0 [|v0 [|??]]]; try done.
  destruct (decide (m !! k0 = None)) as [Hnone|]; [|done].
  rewrite lookup_insert_ne; [done|]. intros ->. congruence.
Qed.

Lemma pane_map_step_spaced (m : gmap string string) (line k v : string) :
  TerminalClient.pane_map_step m line !! k = Some v →
  m !! k = Some v ∨ ∀ pre post, k ≠ pre +:+ " " +:+ post.
Proof.
  unfold TerminalClient.pane_map_step.
  destruct (Str.truthy line); [|by left].
  destruct (split1_cases " " line) as [[Hs Hno]|(k0 & v0 & Hs & -> & Hk0)];
    rewrite Hs; [by left|].
  destruct (decide (m !! k0 = None)); [|by left].
  destruct (decide (k = k0)) as [->|Hne].
  - intros _. by right.
  - rewrite lookup_insert_ne by done. by left.
Qed.

Lemma pane_map_fold_lookup (m : gmap string string) (lines : list string)
    (k v : string) :
  foldl TerminalClient.pane_map_step m lines !! k = Some v ↔
  m !! k = Some v ∨ (m !! k = None ∧ first_listed lines k v).
Proof.
  revert m. induction lines as [|line lines IH]; intros m; simpl.
  - split; [by left|]. intros [?|[_ (_ & i & Hi & _)]]; [done|].
    by rewrite lookup_nil in Hi.
  - rewrite IH. split.
    + intros [Hs|[Hn (Hk & i & Hi & Hfirst)]].
      * destruct (pane_map_step_spaced _ _ _ _ Hs) as [?|Hk]; [by left|].
        apply (pane_map_step_lookup _ _ _ _ Hk) in Hs as [?|[Hn ->]];
          [by left|].
        right. split; [done|]. split; [done|]. exists 0%nat.
        split; [done|]. intros; lia.
      * destruct (m !! k) as [u|] eqn:Hm.
        { by rewrite (pane_map_step_keeps _ _ _ _ Hm) in Hn. }
        right. split; [done|]. split; [done|]. exists (S i).
        split; [done|]. intros [|j] v' Hj; simpl.
        -- intros [= ->].
           assert (TerminalClient.pane_map_step m (k +:+ " " +:+ v') !! k
                   = Some v') as Hc
             by (apply pane_map_step_lookup; [done|by right]).
           congruence.
        -- apply Hfirst. lia.
    + intros [Hm|[Hn (Hk & [|i] & Hi & Hfirst)]].
      * left. by apply pane_map_step_keeps.
      * left. injection Hi as ->. apply pane_map_step_lookup; [done|by right].
      * right. split.
        -- destruct (TerminalClient.pane_map_step m line !! k) as [u|] eqn:Hs;
             [|done].
           apply (pane_map_step_lookup _ _ _ _ Hk) in Hs as [?|[_ ->]];
             [congruence|].
           by destruct (Hfirst 0%nat u ltac:(lia)).
        -- split; [done|]. exists i. split; [done|].
           intros j v' Hj. apply (Hfirst (S j) v'). lia.
Qed.

(** C3 as stated fails: when a session name is listed twice, the pane
    listed last does not win. *)
Lemma get_pane_map_last_listed_loses :
  let w := mkWorld
    (λ _, mkCompleted 0 ("claude-a %1" +:+ String LF ("claude-a %2" +:+
                                                       String LF "")))
    (λ _, 0) (λ _, 0%nat) [] id in
  (TerminalClient.get_pane_map w start).1 !! "claude-a" = Some "%1" ∧
  (TerminalClient.get_pane_map w start).1 !! "claude-a" ≠ Some "%2".
Proof. by vm_compute. Qed.

(** C3, amended: [get_pane_map] maps each listed session name to the
    pane of the first line listed for it, lines listed later for the
    same name being ignored; when the listing fails the map is empty. *)
Theorem get_pane_map_first_listed (w : World) (t : Trace) :
  let result := subprocess_result w
    ["tmux"; "list-panes"; "-a"; "-F"; "#{session_name} #{pane_id}"] in
  let pane_map := (TerminalClient.get_pane_map w t).1 in
  (returncode result ≠ 0 → pane_map = ∅) ∧
  (returncode result = 0 → ∀ k v,
     pane_map !! k = Some v ↔
     first_listed (Str.split LF (Str.strip (stdout result))) k v).
Proof.
  unfold TerminalClient.get_pane_map, mbind, M_bind, subprocess_run. simpl.
  split; intros Hrc.
  - by rewrite decide_True.
  - rewrite decide_False by (by intros ?). simpl. intros k v.
    rewrite pane_map_fold_lookup, lookup_empty.
    split; [by intros [?|[_ ?]] | by right].
Qed.

Lemma get_pane_map_first_listed_witness :
  let w := mkWorld
    (λ _, mkCompleted 0 ("claude-a %1" +:+ String LF ("claude-a %2" +:+
                                                       String LF "")))
    (λ _, 0) (λ _, 0%nat) [] id in
  returncode (subprocess_result w
    ["tmux"; "list-panes"; "-a"; "-F"; "#{session_name} #{pane_id}"]) = 0 ∧
  ((TerminalClient.get_pane_map w start).1 !! "claude-a" = Some "%1" ↔
   first_listed ["claude-a %1"; "claude-a %2"] "claude-a" "%1").
Proof.
  intros w. split; [reflexivity|].
  exact (proj2 (get_pane_map_first_listed w start) eq_refl "claude-a" "%1").
Defined.

(** ** Sessions entering the registry *)

(** Unfolds the plumbing of the environment around an operation. *)
Ltac step_env :=
  cbv [mbind M_bind mret M_ret ask subprocess_run datetime_now
       TerminalClient.create_session TerminalClient.send_keys
       TerminalClient.rename_session TerminalClient.delete_session];
  cbn [fst snd calls ticks draws].

(** What [action_new_session] answers: nothing when [save_path] raises,
    no command having been run; otherwise the sorted registry with the
    new session in it, and the path history as [save_path] leaves it. *)
Lemma action_new_session_raises (r : NewSessionResult) (app : CactusApp)
    (file : PathsFile) (w : World) (t : Trace) :
  save_path_raising w (result_path r) file = None →
  CactusApp.action_new_session (Some r) app file w t = (None, t).
Proof.
  intros Hsave. unfold CactusApp.action_new_session. step_env.
  by rewrite Hsave.
Qed.

Lemma action_new_session_saved (r : NewSessionResult) (app : CactusApp)
    (file file' : PathsFile) (w : World) (t : Trace) :
  save_path_raising w (result_path r) file = Some file' →
  ∃ app',
    (CactusApp.action_new_session (Some r) app file w t).1
      = Some (app', file') ∧
    sessions app' =
      CactusApp._sort_sessions
        ((set_is_active false <$> sessions app) ++
         [mkSession (result_name r) (expanduser w (result_path r))
                    ("claude-" +:+ result_name r) "" READY true
                    (clock w (ticks t))]).
Proof.
  intros Hsave. unfold CactusApp.action_new_session. step_env.
  rewrite Hsave. step_env.
  destruct (TerminalClient.switch_to_session _ _ _) as [[] ?];
    eexists; (split; [reflexivity|reflexivity]).
Qed.

Lemma action_new_session_sessions (r : NewSessionResult) (app app' : CactusApp)
    (file file' : PathsFile) (w : World) (t : Trace) :
  (CactusApp.action_new_session (Some r) app file w t).1
    = Some (app', file') →
  save_path_raising w (result_path r) file = Some file' ∧
  sessions app' =
    CactusApp._sort_sessions
      ((set_is_active false <$> sessions app) ++
       [mkSession (result_name r) (expanduser w (result_path r))
                  ("claude-" +:+ result_name r) "" READY true
                  (clock w (ticks t))]).
Proof.
  intros Hrun.
  destruct (save_path_raising w (result_path r) file) as [file''|] eqn:Hsave.
  - destruct (action_new_session_saved r app file file'' w t Hsave)
      as (app'' & Hrun' & Hsessions).
    rewrite Hrun' in Hrun. by simplify_eq.
  - by rewrite (action_new_session_raises r app file w t Hsave) in Hrun.
Qed.

Lemma load_loop_appends (names : list string) (l : list Session)
    (w : World) (t : Trace) :
  ∃ new, (CactusApp.load_loop names l w t).1 = l ++ new ∧
         Forall (λ s, status s = READY ∧ last_content s = "") new.
Proof.
  revert l t.
  induction names as [|n names IH]; intros l t; cbn [CactusApp.load_loop].
  - exists []. by rewrite app_nil_r.
  - destruct (Str.startswith n "claude-"); [|apply IH].
    step_env.
    destruct (IH (l ++ [mkSession (Str.str_drop 7 n) "" n "" READY false
                                  (clock w (ticks t))])
                 (mkTrace (calls t) (S (ticks t)) (draws t)))
      as (new & Hnew & Hall).
    eexists (_ :: new). rewrite Hnew, <- app_assoc. split; [done|].
    by constructor.
Qed.

(** C10: the sessions that [_load_existing_sessions] adds to the
    registry, and the session that [action_new_session] adds, have
    status READY and an empty [last_content]. A creation either raises
    in [save_path], and then runs no command and adds nothing, or adds
    one such session. *)
Theorem sessions_enter_ready :
  (∀ app w t, ∃ new,
     sessions (CactusApp._load_existing_sessions app w t).1
       ≡ₚ sessions app ++ new ∧
     Forall (λ s, status s = READY ∧ last_content s = "") new) ∧
  (∀ w t s, s ∈ sessions (CactusApp._load_existing_sessions
                            CactusApp.init w t).1 →
     status s = READY ∧ last_content s = "") ∧
  (∀ r app file w t,
     (save_path_raising w (result_path r) file = None ∧
      CactusApp.action_new_session (Some r) app file w t = (None, t)) ∨
     (∃ app' file' s,
        save_path_raising w (result_path r) file = Some file' ∧
        (CactusApp.action_new_session (Some r) app file w t).1
          = Some (app', file') ∧
        sessions app' ≡ₚ (set_is_active false <$> sessions app) ++ [s] ∧
        name s = result_name r ∧ status s = READY ∧ last_content s = "")).
Proof.
  assert (Hload : ∀ app w t, ∃ new,
     sessions (CactusApp._load_existing_sessions app w t).1
       ≡ₚ sessions app ++ new ∧
     Forall (λ s, status s = READY ∧ last_content s = "") new).
  { intros app w t. unfold CactusApp._load_existing_sessions. step_env.
    destruct (load_loop_appends (server_sessions w) (sessions app) w t)
      as (new & Hnew & Hall).
    exists new. split; [|done].
    destruct (CactusApp.load_loop _ _ _ _) as [l t']. simpl in *.
    rewrite sort_sessions_perm. by rewrite Hnew. }
  split; [exact Hload|]. split.
  - intros w t s Hs. destruct (Hload CactusApp.init w t) as (new & Hp & Hall).
    rewrite Hp in Hs. simpl in Hs.
    by apply (proj1 (Forall_forall _ _) Hall).
  - intros r app file w t.
    destruct (save_path_raising w (result_path r) file) as [file'|] eqn:Hsave.
    + right.
      destruct (action_new_session_saved r app file file' w t Hsave)
        as (app' & Hrun & Hsessions).
      exists app', file'. eexists. split; [done|]. split; [exact Hrun|].
      rewrite Hsessions. split; [apply sort_sessions_perm|done].
    + left. split; [done|]. by apply action_new_session_raises.
Qed.

(** ** The name of a session created with a blank name *)

Lemma random_choice_lookup (seq : list string) (w : World) (t : Trace) :
  seq ≠ [] →
  ∃ x, seq !! (entropy w (draws t) mod length seq)%nat = Some x ∧
       random_choice seq w t
         = (x, mkTrace (calls t) (ticks t) (S (draws t))).
Proof.
  intros Hne. unfold random_choice.
  destruct (lookup_lt_is_Some_2 seq (entropy w (draws t) mod length seq)%nat)
    as [x Hx].
  { apply Nat.mod_upper_bound. by destruct seq. }
  exists x. by rewrite Hx.
Qed.

(** C4 as stated fails: with a blank name the dialog draws once, and the
    name drawn can be the name of a session already in the registry,
    which then holds two sessions of that name. *)
Lemma blank_name_may_collide :
  let w := mkWorld (λ _, mkCompleted 0 "") (λ _, 0) (λ _, 0%nat) [] id in
  let app := mkApp [mkSession "swift-fox" "/srv" "claude-swift-fox" ""
                              READY true 0] "" in
  ∃ r t' app' file',
    NewSessionScreen.on_input_submitted "path" "  " "/srv" w start
      = (Some r, t') ∧
    draws t' = 2%nat ∧
    result_name r ∈ name <$> sessions app ∧
    (CactusApp.action_new_session (Some r) app Missing w t').1
      = Some (app', file') ∧
    name <$> sessions app' = ["swift-fox"; "swift-fox"].
Proof.
  eexists _, _, _, _. split; [by vm_compute|]. split; [by vm_compute|].
  split; [vm_compute; apply list_elem_of_here|].
  split; [by vm_compute|by vm_compute].
Qed.

(** C4, amended: with a blank name the dialog answers a name made of
    one adjective of [ADJECTIVES], a hyphen and one noun of [NOUNS], each
    taken by a single random draw; the registry is not consulted and
    nothing is drawn again. A creation with that answer either raises in
    [save_path], and then runs no command and creates nothing, or
    creates a session that carries that name. *)
Theorem blank_name_is_one_draw (input_id name_value path_value : string)
    (w : World) (t : Trace) :
  input_id ≠ "name" →
  Str.strip name_value = "" →
  ∃ adjective noun r t',
    NewSessionScreen.on_input_submitted input_id name_value path_value w t
      = (Some r, t') ∧
    ADJECTIVES !! (entropy w (draws t) mod 16)%nat = Some adjective ∧
    NOUNS !! (entropy w (S (draws t)) mod 16)%nat = Some noun ∧
    result_name r = adjective +:+ "-" +:+ noun ∧
    draws t' = (draws t + 2)%nat ∧
    ∀ app file w' t'',
      (save_path_raising w' (result_path r) file = None ∧
       CactusApp.action_new_session (Some r) app file w' t'' = (None, t'')) ∨
      (∃ app' file' s,
         save_path_raising w' (result_path r) file = Some file' ∧
         (CactusApp.action_new_session (Some r) app file w' t'').1
           = Some (app', file') ∧
         s ∈ sessions app' ∧
         name s = adjective +:+ "-" +:+ noun).
Proof.
  intros Hid Hblank.
  destruct (random_choice_lookup ADJECTIVES w t) as (adjective & Ha & Hra);
    [done|].
  destruct (random_choice_lookup NOUNS w
              (mkTrace (calls t) (ticks t) (S (draws t))))
    as (noun & Hn & Hrn); [done|].
  exists adjective, noun. eexists _, _.
  split.
  { unfold NewSessionScreen.on_input_submitted.
    rewrite decide_False by done. rewrite Hblank. cbn [Str.truthy].
    unfold generate_random_name. step_env. rewrite Hra, Hrn. reflexivity. }
  split; [exact Ha|]. split; [exact Hn|]. split; [done|].
  split; [simpl; lia|].
  intros app file w' t''.
  match goal with
  | |- (save_path_raising w' (result_path ?r) file = None ∧ _) ∨ _ =>
      destruct (save_path_raising w' (result_path r) file) as [file'|]
        eqn:Hsave
  end.
  - right.
    match goal with
    | Hsave : save_path_raising w' (result_path ?r) file = _ |- _ =>
        destruct (action_new_session_saved r app file file' w' t'' Hsave)
          as (app' & Hrun & Hsessions)
    end.
    exists app', file'. eexists. split; [done|]. split; [exact Hrun|].
    rewrite Hsessions. split.
    + rewrite sort_sessions_perm. apply elem_of_app. right.
      apply list_elem_of_here.
    + reflexivity.
  - left. split; [done|]. by apply action_new_session_raises.
Qed.

Lemma blank_name_is_one_draw_witness :
  let w := mkWorld (λ _, mkCompleted 0 "") (λ _, 0) (λ _, 7%nat) [] id in
  ∃ adjective noun r t',
    NewSessionScreen.on_input_submitted "path" " " "~/code" w start
      = (Some r, t') ∧
    ADJECTIVES !! (entropy w (draws start) mod 16)%nat = Some adjective ∧
    NOUNS !! (entropy w (S (draws start)) mod 16)%nat = Some noun ∧
    result_name r = adjective +:+ "-" +:+ noun ∧
    draws t' = (draws start + 2)%nat ∧
    ∀ app file w' t'',
      (save_path_raising w' (result_path r) file = None ∧
       CactusApp.action_new_session (Some r) app file w' t'' = (None, t'')) ∨
      (∃ app' file' s,
         save_path_raising w' (result_path r) file = Some file' ∧
         (CactusApp.action_new_session (Some r) app file w' t'').1
           = Some (app', file') ∧
         s ∈ sessions app' ∧
         name s = adjective +:+ "-" +:+ noun).
Proof.
  intros w.
  apply (blank_name_is_one_draw "path" " " "~/code" w start);
    [discriminate | reflexivity].
Defined.

(** ** Focus flags *)

(** Without a twin of the session at index [i], the loop of
    [action_switch_session] flags that session and no other. *)
Lemma mark_active_loop_no_twin (i : nat) (l : list Session) (session : Session) :
  l !! i = Some session → no_twin i l →
  CactusApp.mark_active_loop i l
    = alter (set_is_active true) i (set_is_active false <$> l).
Proof.
  intros Hi Htwin. unfold CactusApp.mark_active_loop.
  set (f := λ (acc : list Session) (k : nat), _).
  set (L := alter (set_is_active true) i (set_is_active false <$> l)).
  assert (HL : length L = length l)
    by (unfold L; by rewrite length_alter, length_fmap).
  assert (Hgen : ∀ n, (n ≤ length l)%nat →
            foldl f l (seq 0 n) = take n L ++ drop n l).
  { induction n as [|n IH]; intros Hn; [by rewrite take_0, drop_0|].
    rewrite seq_S, foldl_app, IH by lia. simpl.
    destruct (lookup_lt_is_Some_2 l n ltac:(lia)) as [s Hs].
    assert (Hlen : length (take n L) = n) by (rewrite length_take; lia).
    assert (Hacc_n : (take n L ++ drop n l) !! n = Some s).
    { rewrite lookup_app_r by lia. rewrite Hlen, Nat.sub_diag, lookup_drop.
      by rewrite Nat.add_0_r. }
    assert (HLn : L !! n = Some (if decide (n = i) then set_is_active true s
                                 else set_is_active false s)).
    { unfold L. destruct (decide (n = i)) as [->|Hne].
      - rewrite list_lookup_alter_eq, list_lookup_fmap, Hs. done.
      - rewrite list_lookup_alter_ne by done.
        by rewrite list_lookup_fmap, Hs. }
    assert (Hacc_i : (take n L ++ drop n l) !! i
              = Some (if decide (i < n)%nat then set_is_active true session
                      else session)).
    { destruct (decide (i < n)%nat) as [Hlt|Hge].
      - rewrite lookup_app_l by lia. rewrite lookup_take_lt by lia.
        unfold L. by rewrite list_lookup_alter_eq, list_lookup_fmap, Hi.
      - rewrite lookup_app_r by lia. rewrite Hlen, lookup_drop.
        by replace (n + (i - n))%nat with i by lia. }
    unfold f at 1. rewrite Hacc_n, Hacc_i.
    rewrite (take_S_r _ _ _ HLn), (drop_S _ _ _ Hs).
    rewrite insert_app_r_alt by lia. rewrite Hlen, Nat.sub_diag. simpl.
    rewrite <- app_assoc. simpl. do 3 f_equal.
    unfold Session_eq. destruct (decide (n = i)) as [->|Hne].
    - rewrite decide_False by lia. rewrite Hi in Hs. injection Hs as ->.
      by rewrite bool_decide_eq_true_2.
    - rewrite bool_decide_eq_false_2; [done|]. intros Heq.
      apply (Htwin n s session Hne Hs Hi). unfold same_but_active.
      destruct (decide (i < n)%nat); by rewrite Heq. }
  rewrite Hgen by done.
  rewrite firstn_all2 by lia. rewrite drop_all. by rewrite app_nil_r.
Qed.

Lemma list_index_first (x : Session) (l : list Session) (i : nat) :
  l !! i = Some x →
  (∀ j y, (j < i)%nat → l !! j = Some y → y ≠ x) →
  list_index x l = Some i.
Proof.
  intros Hi Hfirst. unfold list_index.
  assert (list_find (λ s, Is_true (Session_eq s x)) l = Some (i, x)) as ->;
    [|done].
  apply list_find_Some. split; [done|]. split.
  - unfold Session_eq. by rewrite bool_decide_eq_true_2.
  - intros j y Hj Hlt. unfold Session_eq. rewrite bool_decide_spec.
    exact (Hfirst j y Hlt Hj).
Qed.

Lemma list_remove_first (x : Session) (l : list Session) (i : nat) :
  l !! i = Some x →
  (∀ j y, (j < i)%nat → l !! j = Some y → y ≠ x) →
  list_remove x l = Some (delete i l).
Proof.
  intros Hi Hfirst. unfold list_remove.
  by rewrite (list_index_first x l i Hi Hfirst).
Qed.

Lemma elem_of_delete (i : nat) (l : list Session) (x : Session) :
  x ∈ delete i l → ∃ j, j ≠ i ∧ l !! j = Some x.
Proof.
  intros [j Hj]%list_elem_of_lookup.
  destruct (decide (j < i)%nat).
  - rewrite list_lookup_delete_lt in Hj by done. exists j. split; [lia|done].
  - rewrite list_lookup_delete_ge in Hj by lia. exists (S j). split; [lia|done].
Qed.

Lemma active_sessions_alter (g : Session → Session) (i : nat)
    (l : list Session) (session : Session) :
  l !! i = Some session →
  (∀ s, is_active (g s) = true) →
  active_sessions (alter g i (set_is_active false <$> l))
    = [g (set_is_active false session)].
Proof.
  intros Hi Hg. unfold active_sessions.
  assert (Hnone : ∀ l' : list Session,
            filter (λ s, is_active s = true) (set_is_active false <$> l') = []).
  { induction l' as [|x l' IH]; [done|]. rewrite fmap_cons, filter_cons.
    by rewrite decide_False. }
  revert i Hi. induction l as [|x l IH]; intros [|i] Hi; try done.
  - injection Hi as ->. simpl. rewrite filter_cons, decide_True by apply Hg.
    by rewrite Hnone.
  - simpl. rewrite filter_cons, decide_False by done. by apply IH.
Qed.

(** X26: without a twin of the highlighted session, [action_switch_session]
    does what C7 says: on success the session is the only one flagged,
    is stamped with the clock and leaves READY for READ; on failure the
    registry is untouched; the hint tells the two apart. *)
Lemma switch_session_no_twin (app : CactusApp) (i : nat) (session : Session)
    (w : World) (t : Trace) :
  sessions app !! i = Some session →
  no_twin i (sessions app) →
  let sw := TerminalClient.switch_to_session (tmux_session_name session) w t in
  let app' := (CactusApp.action_switch_session (Some i) app w t).1 in
  let focused :=
    CactusApp.demote_ready
      (set_last_visited (clock w (ticks sw.2)) (set_is_active true session)) in
  if sw.1 then
    sessions app' ≡ₚ <[i := focused]> (set_is_active false <$> sessions app) ∧
    active_sessions (sessions app') = [focused] ∧
    hint app' = "Switched to: " +:+ tmux_session_name session
  else
    sessions app' = sessions app ∧
    hint app' = "No tmux client! Run: tmux attach -t " +:+
                tmux_session_name session.
Proof.
  intros Hi Htwin.
  assert (Hh : CactusApp.highlighted_session (Some i) app = Some (i, session))
    by (unfold CactusApp.highlighted_session; simpl; by rewrite Hi).
  unfold CactusApp.action_switch_session. rewrite Hh. step_env.
  destruct (TerminalClient.switch_to_session _ w t) as [[] t1]; simpl;
    [|done].
  rewrite (mark_active_loop_no_twin i _ session Hi Htwin).
  set (focused := CactusApp.demote_ready _).
  assert (Hl : alter CactusApp.demote_ready i
                 (alter (set_last_visited (clock w (ticks t1))) i
                    (alter (set_is_active true) i
                       (set_is_active false <$> sessions app)))
               = <[i := focused]> (set_is_active false <$> sessions app)).
  { rewrite !list_alter_alter_eq. apply list_eq. intros j.
    destruct (decide (j = i)) as [->|Hne].
    - rewrite list_lookup_alter_eq, list_lookup_insert_eq
        by (rewrite length_fmap; by eapply lookup_lt_Some).
      by rewrite list_lookup_fmap, Hi.
    - by rewrite list_lookup_alter_ne, list_lookup_insert_ne. }
  rewrite Hl. split; [apply sort_sessions_perm|]. split; [|done].
  apply Permutation_singleton_r. unfold active_sessions.
  rewrite sort_sessions_perm.
  rewrite <- Hl, !list_alter_alter_eq.
  erewrite (active_sessions_alter _ i _ session Hi); [done|].
  intros s. unfold CactusApp.demote_ready. simpl. by destruct (decide _).
Qed.

(** C7 fails on the code where the registry holds a twin of the
    highlighted session. Two tmux sessions found at startup under one
    and the same clock reading, the second renamed to the name of the
    first, are equal field for field; switching to the second then flags
    both. *)
Theorem switch_session_flags_twin :
  let startup :=
    example_world (attached "/dev/pts/0") 1700000000000000
                  ["claude-api"; "claude-web"] in
  let later := example_world (attached "/dev/pts/0") 1700000060000000 [] in
  let app0 := (CactusApp._load_existing_sessions CactusApp.init
                 startup start).1 in
  let app1 := (CactusApp.action_rename_session (Some 1%nat) (Some "api") app0
                 later start).1 in
  let app2 := (CactusApp.action_switch_session (Some 1%nat) app1
                 later start).1 in
  let twin := mkSession "api" "" "claude-api" "" READY false
                        1700000000000000 in
  sessions app1 = [twin; twin] ∧
  sessions app2 = [set_is_active true twin;
                   mkSession "api" "" "claude-api" "" READ true
                             1700000060000000] ∧
  hint app2 = "Switched to: claude-api".
Proof. by vm_compute. Qed.

(** C9 fails on the code for the focus switch: from a registry with one
    session flagged (three sessions found at startup under one and the
    same clock reading, the third focused, the second renamed to the name
    of the first), switching to the second leaves two sessions flagged. *)
Theorem switch_session_two_active :
  let startup :=
    example_world (attached "/dev/pts/0") 1700000000000000
                  ["claude-api"; "claude-web"; "claude-db"] in
  let later := example_world (attached "/dev/pts/0") 1700000060000000 [] in
  let app0 := (CactusApp._load_existing_sessions CactusApp.init
                 startup start).1 in
  let app1 := (CactusApp.action_switch_session (Some 2%nat) app0
                 later start).1 in
  let app2 := (CactusApp.action_rename_session (Some 1%nat) (Some "api") app1
                 later start).1 in
  let app3 := (CactusApp.action_switch_session (Some 1%nat) app2
                 later start).1 in
  is_active <$> sessions app2 = [false; false; true] ∧
  name <$> sessions app2 = ["api"; "api"; "db"] ∧
  length (active_sessions (sessions app2)) = 1%nat ∧
  length (active_sessions (sessions app3)) = 2%nat.
Proof. by vm_compute. Qed.

(** ** Deleting a session *)

Lemma no_twin_flags (i : nat) (l l1 : list Session) :
  (∀ j, set_is_active true <$> l1 !! j = set_is_active true <$> l !! j) →
  no_twin i l → no_twin i l1.
Proof.
  intros Hflags Htwin j s1 t1 Hne Hj Hi.
  pose proof (Hflags j) as Hfj. pose proof (Hflags i) as Hfi.
  rewrite Hj in Hfj. rewrite Hi in Hfi.
  destruct (l !! j) as [s|] eqn:Hlj; [|done].
  destruct (l !! i) as [t|] eqn:Hli; [|done].
  simpl in Hfj, Hfi. apply (inj Some) in Hfj. apply (inj Some) in Hfi.
  unfold same_but_active. rewrite Hfj, Hfi.
  by apply (Htwin j s t).
Qed.

Lemma refocus_flags (tgt : nat) (l : list Session) (j : nat) :
  set_is_active true <$>
    alter (set_is_active true) tgt (set_is_active false <$> l) !! j
  = set_is_active true <$> l !! j.
Proof.
  destruct (decide (j = tgt)) as [->|Hne].
  - rewrite list_lookup_alter_eq, list_lookup_fmap. by destruct (l !! tgt).
  - rewrite list_lookup_alter_ne by done. rewrite list_lookup_fmap.
    by destruct (l !! j).
Qed.

Lemma list_remove_no_twin (i : nat) (l : list Session) (x : Session) :
  l !! i = Some x → no_twin i l → list_remove x l = Some (delete i l).
Proof.
  intros Hi Htwin. apply list_remove_first; [done|].
  intros j y Hlt Hj ->. apply (Htwin j x x); [lia|done|done|done].
Qed.

Lemma list_index_no_twin (i : nat) (l : list Session) (x : Session) :
  l !! i = Some x → no_twin i l → list_index x l = Some i.
Proof.
  intros Hi Htwin. apply list_index_first; [done|].
  intros j y Hlt Hj ->. apply (Htwin j x x); [lia|done|done|done].
Qed.

(** What the second half of [action_delete_session] does to a registry
    in which the highlighted session has no twin. *)
Lemma delete_session_tail (i : nat) (session : Session) (app1 : CactusApp) :
  sessions app1 !! i = Some session → no_twin i (sessions app1) →
  (sessions app1 !! i ≫= λ session', list_remove session' (sessions app1))
    = Some (delete i (sessions app1)) ∧
  (∀ s, s ∈ CactusApp._sort_sessions (delete i (sessions app1)) →
        ¬ same_but_active s session) ∧
  length (CactusApp._sort_sessions (delete i (sessions app1)))
    = (length (sessions app1) - 1)%nat.
Proof.
  intros Hi Htwin. split.
  { rewrite Hi. simpl. by apply list_remove_no_twin. }
  split.
  - intros s. rewrite sort_sessions_perm.
    intros (j & Hne & Hj)%elem_of_delete. by apply (Htwin j s session).
  - rewrite sort_sessions_perm, length_delete; [done|by eexists].
Qed.

(** C8 as stated fails: with no client attached, deleting the focused
    session of a registry of two removes it and leaves the other one
    unflagged; focus has not been reassigned. *)
Lemma delete_session_detached_no_refocus :
  let w := example_world detached 1700000000000000 [] in
  ∃ app1 file1 app2 file2,
    (CactusApp.action_new_session
       (Some (mkResult "web" "/srv/web")) CactusApp.init Missing
       w start).1 = Some (app1, file1) ∧
    (CactusApp.action_new_session
       (Some (mkResult "api" "/srv/api")) app1 file1
       (example_world detached 1700000060000000 []) start).1
      = Some (app2, file2) ∧
    let out := CactusApp.action_delete_session (Some 0%nat) app2 w start in
    (name <$> sessions app2, is_active <$> sessions app2)
      = (["api"; "web"], [true; false]) ∧
    (sessions <$> out.1)
      = Some [mkSession "web" "/srv/web" "claude-web" "" READY false
                        1700000000000000] ∧
    calls out.2 = [["tmux"; "list-clients"; "-F"; "#{client_tty}"];
                   ["tmux"; "kill-session"; "-t"; "claude-api"]].
Proof.
  eexists _, _, _, _. split; [by vm_compute|]. split; [by vm_compute|].
  by vm_compute.
Qed.

(** C8, amended: [action_delete_session] removes the highlighted session
    from the registry whatever tmux answers, so that no session like it
    is left in the sorted view; when another session exists, a switch to
    the session at index 0 (index 1 when the deleted one is at index 0)
    is requested before the kill, and that session becomes the only one
    flagged when a client is attached, the flags staying as they were
    when none is. Stated for a highlighted session without a twin. *)
Theorem delete_session_removes (app : CactusApp) (i : nat)
    (session : Session) (w : World) (t : Trace) :
  sessions app !! i = Some session →
  no_twin i (sessions app) →
  let tgt := if decide (i = 0%nat) then 1%nat else 0%nat in
  let kill := ["tmux"; "kill-session"; "-t"; tmux_session_name session] in
  let out := CactusApp.action_delete_session (Some i) app w t in
  ∃ app', out.1 = Some app' ∧
    (∀ s, s ∈ sessions app' → ¬ same_but_active s session) ∧
    length (sessions app') = (length (sessions app) - 1)%nat ∧
    match sessions app !! tgt with
    | None => calls out.2 = calls t ++ [kill]
    | Some target =>
        let sw := TerminalClient.switch_to_session
                    (tmux_session_name target) w t in
        calls out.2 = calls sw.2 ++ [kill] ∧
        if sw.1 then
          sessions app' ≡ₚ
            delete i (alter (set_is_active true) tgt
                            (set_is_active false <$> sessions app)) ∧
          active_sessions (sessions app') = [set_is_active true target]
        else sessions app' ≡ₚ delete i (sessions app)
    end.
Proof.
  intros Hi Htwin tgt kill.
  assert (Hlt : (i < length (sessions app))%nat) by (by eapply lookup_lt_Some).
  assert (Htgt : tgt ≠ i) by (unfold tgt; destruct (decide (i = 0%nat)); lia).
  assert (Hh : CactusApp.highlighted_session (Some i) app = Some (i, session))
    by (unfold CactusApp.highlighted_session; simpl; by rewrite Hi).
  unfold CactusApp.action_delete_session. rewrite Hh.
  unfold CactusApp.switch_away.
  rewrite (list_index_no_twin i _ session Hi Htwin). fold tgt.
  destruct (decide (1 < length (sessions app))%nat) as [Hlen|Hlen].
  - destruct (sessions app !! tgt) as [target|] eqn:Ht.
    2:{ apply lookup_ge_None in Ht. unfold tgt in *.
        destruct (decide (i = 0%nat)); lia. }
    step_env.
    destruct (TerminalClient.switch_to_session _ w t) as [[] t1];
      cbn [fst snd sessions hint].
    + set (L := alter (set_is_active true) tgt
                      (set_is_active false <$> sessions app)).
      assert (HLi : L !! i = Some (set_is_active false session)).
      { unfold L. rewrite list_lookup_alter_ne by done.
        by rewrite list_lookup_fmap, Hi. }
      assert (HLtwin : no_twin i L).
      { eapply no_twin_flags; [|exact Htwin]. intros j. apply refocus_flags. }
      destruct (delete_session_tail i _ (mkApp L ("Switched to: " +:+
                  tmux_session_name target)) HLi HLtwin)
        as (Hrem & Hnot & Hlength).
      cbn [sessions] in Hrem, Hnot, Hlength. unfold mbind in Hrem.
      rewrite Hrem.
      eexists. split; [reflexivity|]. cbn [sessions CactusApp._refresh_list].
      split; [intros s Hs; by apply (Hnot s)|].
      split.
      { rewrite Hlength. unfold L. by rewrite length_alter, length_fmap. }
      split; [done|]. split; [apply sort_sessions_perm|].
      apply Permutation_singleton_r. unfold active_sessions.
      rewrite sort_sessions_perm.
      assert (Hact : filter (λ s, is_active s = true) L
                     = [set_is_active true target]).
      { apply (active_sessions_alter (set_is_active true) tgt _ target Ht).
        done. }
      rewrite <- Hact. rewrite (delete_Permutation L i _ HLi) at 2.
      by rewrite filter_cons, decide_False.
    + destruct (delete_session_tail i _ app Hi Htwin)
        as (Hrem & Hnot & Hlength).
      unfold mbind in Hrem. rewrite Hrem. eexists. split; [reflexivity|].
      cbn [sessions CactusApp._refresh_list].
      split; [done|]. split; [done|]. split; [done|].
      apply sort_sessions_perm.
  - assert (sessions app !! tgt = None) as ->.
    { apply lookup_ge_None. unfold tgt. destruct (decide (i = 0%nat)); lia. }
    step_env. cbn [fst snd].
    destruct (delete_session_tail i _ app Hi Htwin)
      as (Hrem & Hnot & Hlength).
    unfold mbind in Hrem. rewrite Hrem. eexists. split; [reflexivity|].
    cbn [sessions CactusApp._refresh_list]. done.
Qed.

Lemma delete_session_removes_witness :
  let api := mkSession "api" "/srv/api" "claude-api" "" READY true
                       1700000060000000 in
  let web := mkSession "web" "/srv/web" "claude-web" "" WORKING false
                       1700000000000000 in
  let app := mkApp [api; web] "" in
  let w := example_world (attached "/dev/pts/0") 1700000090000000 [] in
  ∃ app', (CactusApp.action_delete_session (Some 0%nat) app w start).1
            = Some app' ∧
          (∀ s, s ∈ sessions app' → ¬ same_but_active s api) ∧
          length (sessions app') = 1%nat.
Proof.
  intros api web app w.
  assert (Htwin : no_twin 0 (sessions app)).
  { intros [|[|j]] s u Hne Hj Hi; [done| |done].
    injection Hj as <-. injection Hi as <-. discriminate. }
  destruct (delete_session_removes app 0 api w start eq_refl Htwin)
    as (app' & Hout & Hnot & Hlen & _).
  exists app'. split; [exact Hout|]. split; [exact Hnot|exact Hlen].
Defined.

(** ** At most one session flagged: the operations that keep it *)

Lemma active_sessions_flags (l l' : list Session) :
  is_active <$> l = is_active <$> l' →
  length (active_sessions l) = length (active_sessions l').
Proof.
  unfold active_sessions. revert l'.
  induction l as [|x l IH]; intros [|y l'] Heq; try done.
  injection Heq as Hxy Heq. rewrite !filter_cons, Hxy.
  destruct (decide (is_active y = true)); simpl; by rewrite (IH l').
Qed.

Lemma active_sessions_delete (k : nat) (l : list Session) :
  (length (active_sessions (delete k l)) ≤ length (active_sessions l))%nat.
Proof.
  unfold active_sessions. revert k.
  induction l as [|x l IH]; intros [|k]; simpl; try done.
  - rewrite filter_cons. destruct (decide _); simpl; lia.
  - rewrite !filter_cons. specialize (IH k).
    destruct (decide _); simpl; lia.
Qed.

(** X27: a creation whose [save_path] goes through answers, and leaves
    exactly the new session flagged, whether or not a client is attached
    to follow it; the path history is as [save_path] leaves it. *)
Lemma new_session_sole_focus (r : NewSessionResult) (app : CactusApp)
    (file file' : PathsFile) (w : World) (t : Trace) :
  save_path_raising w (result_path r) file = Some file' →
  ∃ app',
    (CactusApp.action_new_session (Some r) app file w t).1
      = Some (app', file') ∧
    active_sessions (sessions app')
    = [mkSession (result_name r) (expanduser w (result_path r))
                 ("claude-" +:+ result_name r) "" READY true
                 (clock w (ticks t))].
Proof.
  intros Hsave.
  destruct (action_new_session_saved r app file file' w t Hsave)
    as (app' & Hrun & Hsessions).
  exists app'. split; [exact Hrun|].
  rewrite Hsessions. apply Permutation_singleton_r.
  unfold active_sessions. rewrite sort_sessions_perm, filter_app.
  assert (filter (λ s, is_active s = true)
            (set_is_active false <$> sessions app) = []) as ->; [|done].
  clear. induction (sessions app) as [|x l IH]; [done|].
  by rewrite fmap_cons, filter_cons, decide_False.
Qed.

Lemma new_session_sole_focus_witness :
  let w := example_world detached 1700000060000000 [] in
  let web := mkSession "web" "/srv/web" "claude-web" "" WORKING true
                       1700000000000000 in
  let file := Text ("/srv/web" +:+ String LF "") in
  let file' := Text ("/srv/api" +:+ String LF ("/srv/web" +:+ String LF "")) in
  save_path_raising w "/srv/api" file = Some file' ∧
  ∃ app',
    (CactusApp.action_new_session (Some (mkResult "api" "/srv/api"))
       (mkApp [web] "") file w start).1 = Some (app', file') ∧
    active_sessions (sessions app')
    = [mkSession "api" "/srv/api" "claude-api" "" READY true
                 1700000060000000].
Proof.
  intros w web file file'. split; [reflexivity|].
  exact (new_session_sole_focus (mkResult "api" "/srv/api") (mkApp [web] "")
           file file' w start eq_refl).
Defined.



Lemma update_one_flag (pane_map : gmap string string) (s : Session)
    (w : World) (t : Trace) :
  is_active (CactusApp.update_one pane_map s w t).1.1 = is_active s.
Proof.
  unfold CactusApp.update_one.
  destruct (pane_map !! tmux_session_name s) as [pane_id|]; [|done].
  destruct (Str.truthy pane_id); [|done].
  step_env. destruct (TerminalClient.capture_pane pane_id w t) as [[|??] ?];
    [done|].
  destruct (detect_status _ _ _) as [? []]; simpl;
    by destruct (decide _).
Qed.

Lemma update_loop_flags (pane_map : gmap string string) (l : list Session)
    (w : World) (t : Trace) :
  is_active <$> (CactusApp.update_loop pane_map l w t).1.1 = is_active <$> l.
Proof.
  revert t. induction l as [|s l IH]; intros t; [done|].
  cbn [CactusApp.update_loop]. step_env.
  pose proof (update_one_flag pane_map s w t) as Hs.
  destruct (CactusApp.update_one pane_map s w t) as [[s' c] t1].
  specialize (IH t1).
  destruct (CactusApp.update_loop pane_map l w t1) as [[l' c'] t2].
  cbn [fst snd] in *. rewrite !fmap_cons. congruence.
Qed.

(** A poll tick flags and unflags nothing. *)
Lemma update_status_keeps_focus (app : CactusApp) (w : World) (t : Trace) :
  length (active_sessions (sessions (CactusApp._update_status app w t).1))
  = length (active_sessions (sessions app)).
Proof.
  unfold CactusApp._update_status. step_env.
  destruct (TerminalClient.get_pane_map w t) as [pane_map t1].
  pose proof (update_loop_flags pane_map (sessions app) w t1) as Hl.
  destruct (CactusApp.update_loop pane_map (sessions app) w t1)
    as [[l []] t2]; simpl in *.
  - unfold active_sessions at 1. rewrite sort_sessions_perm.
    by apply active_sessions_flags.
  - by apply active_sessions_flags.
Qed.

(** X28: deleting a session never leaves more than one session flagged,
    twin or no twin, exception or not. *)
Lemma delete_session_keeps_single_focus (highlighted : option nat)
    (app app' : CactusApp) (w : World) (t : Trace) :
  (length (active_sessions (sessions app)) ≤ 1)%nat →
  (CactusApp.action_delete_session highlighted app w t).1 = Some app' →
  (length (active_sessions (sessions app')) ≤ 1)%nat.
Proof.
  intros Hone. unfold CactusApp.action_delete_session.
  destruct (CactusApp.highlighted_session highlighted app) as [[i session]|];
    [|by intros [= <-]].
  step_env.
  assert (Hsw : ∀ app1 t1,
    CactusApp.switch_away i session app w t = (Some app1, t1) →
    (length (active_sessions (sessions app1)) ≤ 1)%nat).
  { unfold CactusApp.switch_away. intros app1 t1.
    destruct (decide (1 < length (sessions app))%nat); [|by intros [= <- _]].
    destruct (list_index session (sessions app)) as [idx|]; [|done].
    destruct (sessions app !! _) as [target|] eqn:Ht; [|done].
    step_env. destruct (TerminalClient.switch_to_session _ w t) as [[] t2];
      intros [= <- _]; [|done].
    cbn [sessions]. fold (active_sessions (sessions app)).
    by rewrite (active_sessions_alter _ _ _ target Ht). }
  destruct (CactusApp.switch_away i session app w t) as [[app1|] t1] eqn:Hsa;
    [|done].
  specialize (Hsw app1 t1 eq_refl). cbn [fst snd].
  destruct (sessions app1 !! i) as [session'|]; [|done]. cbn [option_bind].
  unfold list_remove.
  destruct (list_index session' (sessions app1)) as [k|]; [|done].
  cbn [option_bind]. intros [= <-]. cbn [sessions CactusApp._refresh_list].
  unfold active_sessions at 1. rewrite sort_sessions_perm.
  pose proof (active_sessions_delete k (sessions app1)).
  unfold active_sessions in *. lia.
Qed.

(** * Further properties of the code *)

(** ** The classifier, all branches *)

(** X1: when [detect_status] reports no change, the status it answers is
    the current one; a caller that keeps the old status on [False] loses
    nothing. *)
Theorem detect_status_flag_sound (content last_content : string)
    (current_status : Status) :
  (detect_status content last_content current_status).2 = false →
  (detect_status content last_content current_status).1 = current_status.
Proof.
  unfold detect_status.
  destruct (decide (content ≠ last_content)); [done|].
  destruct (Str.str_in ">" content).
  - destruct (decide (current_status ≠ READ)) as [|Hr]; simpl.
    + intros Hf%bool_decide_eq_false. symmetry. by apply dec_stable.
    + intros _. symmetry. by apply dec_stable.
  - destruct (existsb _ _); simpl;
      intros Hf%bool_decide_eq_false; symmetry; by apply dec_stable.
Qed.

Lemma detect_status_flag_sound_witness :
  (detect_status "$ ls > out" "$ ls > out" READY).2 = false ∧
  (detect_status "$ ls > out" "$ ls > out" READY).1 = READY.
Proof.
  split; [reflexivity|].
  exact (detect_status_flag_sound "$ ls > out" "$ ls > out" READY eq_refl).
Defined.

(** X2: the classification of an unchanged sample is stable: classified
    again with the answered status as the current one, the same sample
    gets the same status and no change is reported. *)
Theorem detect_status_settles (sample : string) (current_status : Status) :
  let answered := (detect_status sample sample current_status).1 in
  detect_status sample sample answered = (answered, false).
Proof.
  assert (Hsame : ∀ A (x y : A),
            (if decide (sample ≠ sample) then x else y) = y)
    by (intros; by rewrite decide_False by (by intros ?)).
  cbv zeta. unfold detect_status. rewrite !Hsame.
  destruct (Str.str_in ">" sample).
  - by destruct current_status.
  - by destruct (existsb _ _).
Qed.

(** X3: which status is answered when. WAITING: exactly for an unchanged
    sample without [>] in which a confirmation phrase occurs. READY:
    exactly for an unchanged sample with [>] on a session that is not
    READ. READ: exactly for an unchanged sample with [>] on a READ
    session; the classifier never moves a session to READ. WORKING in
    every other case. *)
Theorem detect_status_answers (content last_content : string)
    (current_status : Status) :
  let answer := (detect_status content last_content current_status).1 in
  let phrase := existsb (λ p, Str.str_in p content) confirmation_phrases in
  (answer = WAITING ↔
     content = last_content ∧ Str.str_in ">" content = false ∧
     phrase = true) ∧
  (answer = READY ↔
     content = last_content ∧ Str.str_in ">" content = true ∧
     current_status ≠ READ) ∧
  (answer = READ ↔
     content = last_content ∧ Str.str_in ">" content = true ∧
     current_status = READ) ∧
  (answer = WORKING ↔
     content ≠ last_content ∨
     (Str.str_in ">" content = false ∧ phrase = false)).
Proof.
  cbv zeta. unfold detect_status.
  set (phrase := existsb (λ p, Str.str_in p content) confirmation_phrases).
  destruct (decide (content ≠ last_content)) as [Hne|Heq%dec_stable];
    cbn [fst].
  { repeat split; intros; destruct_and?; destruct_or?; destruct_and?;
      simplify_eq; auto. }
  destruct (Str.str_in ">" content); cbn [fst].
  - destruct (decide (current_status ≠ READ)) as [Hr|Hr%dec_stable];
      cbn [fst]; repeat split; intros; destruct_and?; destruct_or?;
      destruct_and?; simplify_eq; auto.
  - destruct phrase; cbn [fst]; repeat split; intros; destruct_and?;
      destruct_or?; destruct_and?; simplify_eq; auto.
Qed.

(** ** The gateway *)

Lemma for_each_calls (clients : list string) (cmd : string → argv)
    (body : string → M unit) (w : World) (t : Trace) :
  (∀ client t', body client w t'
     = ((), mkTrace (calls t' ++ [cmd client]) (ticks t') (draws t'))) →
  for_each clients body w t
  = ((), mkTrace (calls t ++ (cmd <$> clients)) (ticks t) (draws t)).
Proof.
  intros Hbody. revert t. induction clients as [|c clients IH]; intros t.
  - simpl. rewrite app_nil_r. by destruct t.
  - cbn [for_each]. step_env. rewrite Hbody, IH. cbn [calls ticks draws].
    by rewrite <- app_assoc.
Qed.

(** X4: [switch_to_session] asks tmux once for the attached clients and
    then issues one [switch-client] per client, in the order listed; it
    answers [False] exactly when no client is listed, and then issues no
    further command. The clock and the random source are not touched. *)
Theorem switch_to_session_commands (session_name : string) (w : World)
    (t : Trace) :
  let listing := ["tmux"; "list-clients"; "-F"; "#{client_tty}"] in
  let clients :=
    filter (λ c, Is_true (Str.truthy c))
           (Str.split LF (Str.strip (stdout (subprocess_result w listing)))) in
  TerminalClient.switch_to_session session_name w t
  = (bool_decide (clients ≠ []),
     mkTrace
       (calls t ++ listing ::
          ((λ client, ["tmux"; "switch-client"; "-c"; client;
                       "-t"; session_name]) <$> clients))
       (ticks t) (draws t)).
Proof.
  cbv zeta. unfold TerminalClient.switch_to_session. step_env.
  destruct (filter _ _) as [|c clients] eqn:Hc.
  - by rewrite bool_decide_eq_false_2 by (by intros ?).
  - rewrite (for_each_calls _ (λ client, ["tmux"; "switch-client"; "-c";
                                             client; "-t"; session_name]))
      by done.
    cbn [calls ticks draws fst snd].
    rewrite bool_decide_eq_true_2 by done.
    by rewrite <- app_assoc.
Qed.

(** ** The sample of a pane *)

Lemma str_app_assoc (a b c : string) : (a +:+ b) +:+ c = a +:+ (b +:+ c).
Proof.
  induction a as [|x a IH]; [done|].
  change (String x ((a +:+ b) +:+ c) = String x (a +:+ b +:+ c)).
  by f_equal.
Qed.

Lemma str_app_nil_r (a : string) : a +:+ "" = a.
Proof.
  induction a as [|x a IH]; [done|].
  change (String x (a +:+ "") = String x a). by f_equal.
Qed.

Lemma split_nonempty (sep : ascii) (s : string) : Str.split sep s ≠ [].
Proof.
  destruct s as [|c s]; simpl; [done|].
  destruct (decide (c = sep)); [done|]. by destruct (Str.split sep s).
Qed.

Lemma join_cons (sep x : string) (l : list string) :
  l ≠ [] → Str.join sep (x :: l) = x +:+ sep +:+ Str.join sep l.
Proof. by destruct l. Qed.

Lemma join_split (sep : ascii) (s : string) :
  Str.join (String sep "") (Str.split sep s) = s.
Proof.
  induction s as [|c s IH]; [done|]. cbn [Str.split].
  pose proof (split_nonempty sep s) as Hne.
  destruct (decide (c = sep)) as [->|Hc].
  - rewrite join_cons by done. simpl. by rewrite IH.
  - destruct (Str.split sep s) as [|p ps]; [done|].
    destruct ps as [|q ps]; simpl in *; by rewrite <- IH.
Qed.

Lemma join_app (sep : string) (l1 l2 : list string) :
  l1 ≠ [] → l2 ≠ [] →
  Str.join sep (l1 ++ l2) = Str.join sep l1 +:+ sep +:+ Str.join sep l2.
Proof.
  intros Hl1 Hl2. induction l1 as [|x l1 IH]; [done|].
  destruct l1 as [|y l1].
  - change ([x] ++ l2) with (x :: l2). by rewrite join_cons.
  - change ((x :: y :: l1) ++ l2) with (x :: ((y :: l1) ++ l2)).
    rewrite (join_cons sep x ((y :: l1) ++ l2)) by done.
    rewrite IH by done. rewrite (join_cons sep x (y :: l1)) by done.
    by rewrite !str_app_assoc.
Qed.

Lemma split_pieces (sep : ascii) (s : string) :
  Forall (λ p, ∀ pre post, p ≠ pre +:+ String sep post) (Str.split sep s).
Proof.
  induction s as [|c s IH]; simpl.
  - constructor; [|done]. by intros [|??] ?.
  - destruct (decide (c = sep)) as [->|Hc].
    + constructor; [|done]. by intros [|??] ?.
    + pose proof (split_nonempty sep s) as Hne.
      destruct (Str.split sep s) as [|p ps]; [done|].
      inversion IH as [|?? Hp Hps]; subst. constructor; [|done].
      intros [|d pre] post; simpl; intros [=]; [done|]. by eapply Hp.
Qed.

Lemma split_join (sep : ascii) (l : list string) :
  l ≠ [] →
  Forall (λ p, ∀ pre post, p ≠ pre +:+ String sep post) l →
  Str.split sep (Str.join (String sep "") l) = l.
Proof.
  intros Hne Hall. induction Hall as [|x l Hx Hl IH]; [done|].
  assert (Hone : ∀ y rest, (∀ pre post, y ≠ pre +:+ String sep post) →
            Str.split sep (y +:+ String sep rest) = y :: Str.split sep rest).
  { induction y as [|c y IHy]; intros rest Hy; simpl.
    - by rewrite decide_True.
    - rewrite decide_False by (intros ->; by apply (Hy "" y)).
      rewrite IHy; [done|]. intros pre post ->.
      by apply (Hy (String c pre) post). }
  assert (Hlast : ∀ y, (∀ pre post, y ≠ pre +:+ String sep post) →
            Str.split sep y = [y]).
  { induction y as [|c y IHy]; intros Hy; simpl; [done|].
    rewrite decide_False by (intros ->; by apply (Hy "" y)).
    rewrite IHy; [done|]. intros pre post ->.
    by apply (Hy (String c pre) post). }
  destruct l as [|y l].
  - simpl. by apply Hlast.
  - rewrite join_cons by done.
    change (x +:+ String sep "" +:+ Str.join (String sep "") (y :: l))
      with (x +:+ String sep (Str.join (String sep "") (y :: l))).
    rewrite Hone by done. by rewrite IH.
Qed.

(** X5: the sample that a poll compares is cut from the captured text:
    it is an end piece of the capture, it holds exactly the last
    [NUM_LINES_CAPTURE] lines of it, and it is the whole capture when
    that has no more lines than that. *)
Theorem sample_is_capture_tail (pane_id : string) (w : World) (t : Trace) :
  let result :=
    subprocess_result w ["tmux"; "capture-pane"; "-p"; "-t"; pane_id] in
  returncode result = 0 →
  let lines := (TerminalClient.capture_pane pane_id w t).1 in
  let sample :=
    Str.join (String LF "") (Str.last_n NUM_LINES_CAPTURE lines) in
  lines ≠ [] ∧
  (∃ pre, stdout result = pre +:+ sample) ∧
  Str.split LF sample = Str.last_n NUM_LINES_CAPTURE lines ∧
  ((length lines ≤ NUM_LINES_CAPTURE)%nat → sample = stdout result).
Proof.
  intros result Hrc. unfold TerminalClient.capture_pane. step_env.
  fold result. rewrite decide_False by (by intros ?). cbn [fst].
  set (lines := Str.split LF (stdout result)).
  assert (Hne : lines ≠ []) by apply split_nonempty.
  assert (Hjoin : Str.join (String LF "") lines = stdout result)
    by apply join_split.
  unfold Str.last_n. set (k := (length lines - NUM_LINES_CAPTURE)%nat).
  assert (Hk : (k < length lines)%nat).
  { unfold k, NUM_LINES_CAPTURE. destruct lines; [done|]. simpl. lia. }
  assert (Hdrop : drop k lines ≠ []).
  { intros Hd. apply (f_equal length) in Hd. rewrite length_drop in Hd.
    simpl in Hd. lia. }
  split; [done|]. split; [|split].
  - destruct (decide (k = 0%nat)) as [->|Hk0].
    + exists "". by rewrite drop_0.
    + exists (Str.join (String LF "") (take k lines) +:+ String LF "").
      rewrite <- Hjoin at 1. rewrite <- (take_drop k lines) at 1.
      rewrite join_app, str_app_assoc; [done| |done].
      intros Ht. apply (f_equal length) in Ht. rewrite length_take in Ht.
      simpl in Ht. lia.
  - apply split_join; [done|]. apply Forall_drop, split_pieces.
  - intros Hlen. replace k with 0%nat by (unfold k; lia).
    by rewrite drop_0.
Qed.

Lemma sample_is_capture_tail_witness :
  let w := example_world (λ _, mkCompleted 0 "$ make
ok
> ") 0 [] in
  returncode (subprocess_result w
                ["tmux"; "capture-pane"; "-p"; "-t"; "%1"]) = 0 ∧
  Str.split LF
    (Str.join (String LF "")
       (Str.last_n NUM_LINES_CAPTURE
          (TerminalClient.capture_pane "%1" w start).1))
  = Str.last_n NUM_LINES_CAPTURE (TerminalClient.capture_pane "%1" w start).1.
Proof.
  intros w. split; [reflexivity|].
  exact (proj1 (proj2 (proj2
           (sample_is_capture_tail "%1" w start eq_refl)))).
Defined.

(** ** One session under a poll *)

Lemma set_own_fields (s : Session) :
  set_status (status s) (set_last_content (last_content s) s) = s.
Proof. by destruct s. Qed.

(** X6: for a session whose pane is listed and captured, one turn of the
    poll stores the sample as [last_content] and the classifier's answer
    as status, and reports the classifier's flag; it issues the one
    [capture-pane] command. *)
Theorem update_one_captured (pane_map : gmap string string) (s : Session)
    (w : World) (t : Trace) (pane_id : string) :
  let capture := ["tmux"; "capture-pane"; "-p"; "-t"; pane_id] in
  pane_map !! tmux_session_name s = Some pane_id →
  pane_id ≠ "" →
  returncode (subprocess_result w capture) = 0 →
  let content :=
    Str.join (String LF "")
      (Str.last_n NUM_LINES_CAPTURE
         (Str.split LF (stdout (subprocess_result w capture)))) in
  let answer := detect_status content (last_content s) (status s) in
  CactusApp.update_one pane_map s w t
  = ((set_status answer.1 (set_last_content content s), answer.2),
     mkTrace (calls t ++ [capture]) (ticks t) (draws t)).
Proof.
  intros capture Hpane Hid Hrc content answer.
  unfold CactusApp.update_one. rewrite Hpane.
  assert (Str.truthy pane_id = true) as -> by (by destruct pane_id).
  unfold TerminalClient.capture_pane. step_env. fold capture.
  rewrite decide_False by (by intros ?).
  pose proof (split_nonempty LF (stdout (subprocess_result w capture))) as Hne.
  destruct (Str.split LF (stdout (subprocess_result w capture)))
    as [|line lines] eqn:Hlines; [done|].
  fold content. fold answer.
  pose proof (detect_status_flag_sound content (last_content s) (status s))
    as Hsound. fold answer in Hsound.
  destruct answer as [new_status [|]]; cbn [fst snd] in *.
  - destruct (decide (content ≠ last_content s)) as [|Heq%dec_stable];
      [done|].
    rewrite Heq. by destruct s.
  - rewrite Hsound by done.
    destruct (decide (content ≠ last_content s)) as [|Heq%dec_stable];
      [done|].
    rewrite Heq. by rewrite set_own_fields.
Qed.

Lemma update_one_captured_witness :
  let pane_map : gmap string string := {[ "claude-api" := "%1" ]} in
  let s := mkSession "api" "" "claude-api" "" READY false 0 in
  let w := example_world (λ _, mkCompleted 0 "done
> ") 0 [] in
  CactusApp.update_one pane_map s w start
  = ((mkSession "api" "" "claude-api" "done
> " WORKING false 0, true),
     mkTrace [["tmux"; "capture-pane"; "-p"; "-t"; "%1"]] 0 0).
Proof.
  intros pane_map s w.
  exact (update_one_captured pane_map s w start "%1" eq_refl
           ltac:(discriminate) eq_refl).
Defined.

(** X7: a session that cannot be sampled keeps its state: when its tmux
    name is not in the pane map, or is mapped to an empty pane id, the
    turn changes nothing and issues no command; when the capture fails,
    the turn changes nothing. *)
Theorem update_one_unreachable (pane_map : gmap string string) (s : Session)
    (w : World) (t : Trace) :
  (pane_map !! tmux_session_name s = None →
   CactusApp.update_one pane_map s w t = ((s, false), t)) ∧
  (pane_map !! tmux_session_name s = Some "" →
   CactusApp.update_one pane_map s w t = ((s, false), t)) ∧
  (∀ pane_id,
     pane_map !! tmux_session_name s = Some pane_id →
     returncode (subprocess_result w
                   ["tmux"; "capture-pane"; "-p"; "-t"; pane_id]) ≠ 0 →
     (CactusApp.update_one pane_map s w t).1 = (s, false)).
Proof.
  unfold CactusApp.update_one. split; [|split].
  - by intros ->.
  - by intros ->.
  - intros pane_id -> Hrc. destruct (Str.truthy pane_id); [|done].
    unfold TerminalClient.capture_pane. step_env.
    by rewrite decide_True.
Qed.

(** X8: in a world that answers the same, a session settles after two
    polls: polled a third time it is left as it is and no change is
    reported. *)
Theorem update_one_settles (pane_map : gmap string string) (s : Session)
    (w : World) (t1 t2 t3 : Trace) :
  let s1 := (CactusApp.update_one pane_map s w t1).1.1 in
  let s2 := (CactusApp.update_one pane_map s1 w t2).1.1 in
  (CactusApp.update_one pane_map s2 w t3).1 = (s2, false).
Proof.
  cbv zeta.
  destruct (pane_map !! tmux_session_name s) as [pane_id|] eqn:Hpane.
  2:{ destruct (update_one_unreachable pane_map s w t1) as (H1 & _).
      rewrite (H1 Hpane). cbn [fst].
      destruct (update_one_unreachable pane_map s w t2) as (H2 & _).
      rewrite (H2 Hpane). cbn [fst].
      destruct (update_one_unreachable pane_map s w t3) as (H3 & _).
      by rewrite (H3 Hpane). }
  destruct (decide (pane_id = "")) as [->|Hid].
  { destruct (update_one_unreachable pane_map s w t1) as (_ & H1 & _).
    rewrite (H1 Hpane). cbn [fst].
    destruct (update_one_unreachable pane_map s w t2) as (_ & H2 & _).
    rewrite (H2 Hpane). cbn [fst].
    destruct (update_one_unreachable pane_map s w t3) as (_ & H3 & _).
    by rewrite (H3 Hpane). }
  destruct (decide (returncode (subprocess_result w
              ["tmux"; "capture-pane"; "-p"; "-t"; pane_id]) = 0))
    as [Hrc|Hrc].
  2:{ destruct (update_one_unreachable pane_map s w t1) as (_ & _ & H1).
      rewrite (H1 pane_id Hpane Hrc). cbn [fst].
      destruct (update_one_unreachable pane_map s w t2) as (_ & _ & H2).
      rewrite (H2 pane_id Hpane Hrc). cbn [fst].
      destruct (update_one_unreachable pane_map s w t3) as (_ & _ & H3).
      by rewrite (H3 pane_id Hpane Hrc). }
  rewrite (update_one_captured pane_map s w t1 pane_id Hpane Hid Hrc).
  cbn [fst].
  set (content := Str.join _ _).
  set (a1 := (detect_status content (last_content s) (status s)).1).
  rewrite (update_one_captured pane_map
             (set_status a1 (set_last_content content s))
             w t2 pane_id Hpane Hid Hrc).
  cbn [fst]. fold content. cbn [last_content status set_status
                                set_last_content].
  set (a2 := (detect_status content content a1).1).
  rewrite (update_one_captured pane_map
             (set_status a2 (set_last_content content
                (set_status a1 (set_last_content content s))))
             w t3 pane_id Hpane Hid Hrc).
  cbn [fst]. fold content. cbn [last_content status set_status
                                set_last_content].
  pose proof (detect_status_settles content a1) as Hsettle.
  cbv zeta in Hsettle. fold a2 in Hsettle. rewrite Hsettle. done.
Qed.

(** ** The whole poll tick *)

Lemma update_one_identity (pane_map : gmap string string) (s : Session)
    (w : World) (t : Trace) :
  same_identity s (CactusApp.update_one pane_map s w t).1.1 ∧
  ((CactusApp.update_one pane_map s w t).1.2 = false →
   status (CactusApp.update_one pane_map s w t).1.1 = status s).
Proof.
  unfold CactusApp.update_one, same_identity.
  destruct (pane_map !! tmux_session_name s) as [pane_id|]; [|done].
  destruct (Str.truthy pane_id); [|done].
  step_env. destruct (TerminalClient.capture_pane pane_id w t) as [[|??] ?];
    [done|].
  destruct (detect_status _ _ _) as [? []]; cbn [fst snd];
    by destruct (decide _).
Qed.

Lemma update_loop_identity (pane_map : gmap string string) (l : list Session)
    (w : World) (t : Trace) :
  Forall2 same_identity l (CactusApp.update_loop pane_map l w t).1.1 ∧
  ((CactusApp.update_loop pane_map l w t).1.2 = false →
   Forall2 (λ a b, CactusApp.sort_key a = CactusApp.sort_key b)
           l (CactusApp.update_loop pane_map l w t).1.1).
Proof.
  revert t. induction l as [|s l IH]; intros t.
  - split; [constructor|]. intros _. constructor.
  - cbn [CactusApp.update_loop]. step_env.
    destruct (update_one_identity pane_map s w t) as [Hid Hst].
    destruct (CactusApp.update_one pane_map s w t) as [[s' c] t1].
    destruct (IH t1) as [Hl Hkeys].
    destruct (CactusApp.update_loop pane_map l w t1) as [[l' c'] t2].
    cbn [fst snd] in *. split; [by constructor|].
    intros [-> ->]%orb_false_elim. constructor; [|by apply Hkeys].
    unfold CactusApp.sort_key. rewrite (Hst eq_refl).
    by destruct Hid as (_ & _ & _ & _ & ->).
Qed.

(** X9: a poll tick touches nothing but [last_content] and [status]:
    the registry afterwards holds, up to order, the same sessions with
    the same name, path, tmux name, focus flag and [last_visited]; the
    hint is left as it is. *)
Theorem update_status_frame (app : CactusApp) (w : World) (t : Trace) :
  let app' := (CactusApp._update_status app w t).1 in
  hint app' = hint app ∧
  ∃ l', sessions app' ≡ₚ l' ∧ Forall2 same_identity (sessions app) l'.
Proof.
  cbv zeta. unfold CactusApp._update_status. step_env.
  destruct (TerminalClient.get_pane_map w t) as [pane_map t1].
  destruct (update_loop_identity pane_map (sessions app) w t1) as [Hl _].
  destruct (CactusApp.update_loop pane_map (sessions app) w t1)
    as [[l []] t2]; cbn [fst snd] in *.
  - split; [done|]. exists l. split; [apply sort_sessions_perm|done].
  - split; [done|]. by exists l.
Qed.

(** ** The order of the registry *)

Lemma sort_sorted_id (l : list Session) :
  view_sorted l → CactusApp._sort_sessions l = l.
Proof.
  unfold view_sorted, CactusApp._sort_sessions.
  induction 1 as [|x l Hl IH Hx]; [done|].
  cbn [list_sort foldr]. fold (list_sort CactusApp.sort_key tuple_lt l).
  rewrite IH. destruct Hx as [|y l' Hy _]; [done|].
  cbn [insert_sorted]. unfold may_precede in Hy. by rewrite Hy.
Qed.

Lemma sort_sessions_sorted (l : list Session) :
  view_sorted (CactusApp._sort_sessions l).
Proof.
  apply list_sort_sorted; [apply tuple_lt_asym | apply tuple_not_lt_trans].
Qed.

(** X10: refreshing the list twice is refreshing it once: the sort
    leaves a registry that is already in view order exactly as it is. *)
Theorem refresh_list_idempotent (app : CactusApp) :
  CactusApp._refresh_list (CactusApp._refresh_list app)
  = CactusApp._refresh_list app.
Proof.
  unfold CactusApp._refresh_list. cbn [sessions hint]. f_equal.
  apply sort_sorted_id, sort_sessions_sorted.
Qed.

(** X11: the sort is stable: sessions of one status and one
    [last_visited] stand in the sorted view in the order they had in the
    registry. *)
Theorem sort_sessions_stable (l : list Session) (st : Status) (visited : Z) :
  filter (λ s, status s = st ∧ last_visited s = visited)
         (CactusApp._sort_sessions l)
  = filter (λ s, status s = st ∧ last_visited s = visited) l.
Proof.
  assert (Hkey : ∀ s, CactusApp.sort_key s = (CactusApp.priority st, - visited)
                      ↔ status s = st ∧ last_visited s = visited).
  { intros s. unfold CactusApp.sort_key. split.
    - intros [= Hp Hv]. split; [by apply priority_inj | lia].
    - by intros [-> ->]. }
  rewrite <- !(list_filter_iff _ _ _ Hkey).
  apply list_sort_stable, tuple_lt_asym.
Qed.

(** ** The actions at their edges *)

Lemma highlighted_session_Some (app : CactusApp) (i : nat) (session : Session) :
  sessions app !! i = Some session →
  CactusApp.highlighted_session (Some i) app = Some (i, session).
Proof. intros Hi. unfold CactusApp.highlighted_session. simpl. by rewrite Hi. Qed.

(** X12: with nothing under the cursor (no cursor, or a cursor beyond
    the end of the registry) rename, switch and delete leave the
    application as it is and issue no command. *)
Theorem nothing_highlighted (highlighted : option nat)
    (new_name : option string) (app : CactusApp) (w : World) (t : Trace) :
  (highlighted = None ∨
   ∃ i, highlighted = Some i ∧ (length (sessions app) ≤ i)%nat) →
  CactusApp.action_rename_session highlighted new_name app w t = (app, t) ∧
  CactusApp.action_switch_session highlighted app w t = (app, t) ∧
  CactusApp.action_delete_session highlighted app w t = (Some app, t).
Proof.
  intros Hh.
  assert (Hnone : CactusApp.highlighted_session highlighted app = None).
  { unfold CactusApp.highlighted_session.
    destruct Hh as [->|(i & -> & Hlen)]; [done|]. simpl.
    by rewrite (proj2 (lookup_ge_None _ _) Hlen). }
  unfold CactusApp.action_rename_session, CactusApp.action_switch_session,
    CactusApp.action_delete_session. by rewrite Hnone.
Qed.

Lemma nothing_highlighted_witness :
  let w := example_world (attached "/dev/pts/0") 0 [] in
  let app := mkApp [mkSession "api" "" "claude-api" "" READY true 0] "" in
  CactusApp.action_rename_session (Some 1%nat) (Some "web") app w start
    = (app, start) ∧
  CactusApp.action_switch_session (Some 1%nat) app w start = (app, start) ∧
  CactusApp.action_delete_session (Some 1%nat) app w start
    = (Some app, start).
Proof.
  intros w app.
  apply (nothing_highlighted (Some 1%nat) (Some "web") app w start).
  right. exists 1%nat. split; [reflexivity|]. simpl. lia.
Defined.

(** X13: when tmux lists no client, [action_switch_session] changes no
    session: no flag, no [last_visited], no status, no order; it only
    sets the hint, and the one command it has issued is the listing of
    the clients. *)
Theorem switch_session_detached (app : CactusApp) (i : nat)
    (session : Session) (w : World) (t : Trace) :
  sessions app !! i = Some session →
  (TerminalClient.switch_to_session (tmux_session_name session) w t).1
    = false →
  CactusApp.action_switch_session (Some i) app w t
  = (mkApp (sessions app)
           ("No tmux client! Run: tmux attach -t " +:+
            tmux_session_name session),
     mkTrace (calls t ++ [["tmux"; "list-clients"; "-F"; "#{client_tty}"]])
             (ticks t) (draws t)).
Proof.
  intros Hi. unfold CactusApp.action_switch_session.
  rewrite (highlighted_session_Some app i session Hi). step_env.
  rewrite switch_to_session_commands. cbn [fst snd].
  destruct (filter _ _) as [|c clients]; [done|].
  by rewrite bool_decide_eq_true_2.
Qed.

Lemma switch_session_detached_witness :
  let w := example_world detached 0 [] in
  let api := mkSession "api" "" "claude-api" "" READY false 0 in
  CactusApp.action_switch_session (Some 0%nat) (mkApp [api] "") w start
  = (mkApp [api] "No tmux client! Run: tmux attach -t claude-api",
     mkTrace [["tmux"; "list-clients"; "-F"; "#{client_tty}"]] 0 0).
Proof.
  intros w api.
  exact (switch_session_detached (mkApp [api] "") 0 api w start
           eq_refl eq_refl).
Defined.

Lemma list_index_found (x : Session) (l : list Session) (i : nat) :
  l !! i = Some x → ∃ k, list_index x l = Some k ∧ l !! k = Some x.
Proof.
  intros Hi. unfold list_index.
  destruct (list_find (λ s, Is_true (Session_eq s x)) l) as [[k y]|] eqn:Hf.
  - apply list_find_Some in Hf as (Hk & Hy & _).
    unfold Session_eq in Hy. apply bool_decide_unpack in Hy as ->.
    by exists k.
  - apply list_find_None in Hf.
    apply (proj1 (Forall_lookup _ _) Hf i x) in Hi.
    destruct Hi. unfold Session_eq. by apply bool_decide_pack.
Qed.

Lemma flags_only_lookup (l l1 : list Session) (i : nat) (x : Session) :
  (∀ j, set_is_active true <$> l1 !! j = set_is_active true <$> l !! j) →
  l !! i = Some x → ∃ x1, l1 !! i = Some x1 ∧ same_but_active x1 x.
Proof.
  intros Hflags Hi. specialize (Hflags i). rewrite Hi in Hflags.
  destruct (l1 !! i) as [x1|]; [|done]. exists x1. split; [done|].
  simpl in Hflags. by apply (inj Some) in Hflags.
Qed.

Lemma flags_only_fmap (l l1 : list Session) :
  (∀ j, set_is_active true <$> l1 !! j = set_is_active true <$> l !! j) →
  set_is_active true <$> l1 = set_is_active true <$> l.
Proof. intros Hflags. apply list_eq. intros j. by rewrite !list_lookup_fmap. Qed.

(** What [switch_away] returns: never an exception, and a registry that
    differs from the one before in focus flags only. *)
Lemma switch_away_flags (i : nat) (session : Session) (app : CactusApp)
    (w : World) (t : Trace) :
  sessions app !! i = Some session →
  ∃ app1, (CactusApp.switch_away i session app w t).1 = Some app1 ∧
    ∀ j, set_is_active true <$> sessions app1 !! j
         = set_is_active true <$> sessions app !! j.
Proof.
  intros Hi. unfold CactusApp.switch_away.
  destruct (decide (1 < length (sessions app))%nat) as [Hlen|];
    [|by exists app].
  destruct (list_index_found session (sessions app) i Hi) as (idx & -> & _).
  destruct (lookup_lt_is_Some_2 (sessions app)
              (if decide (idx = 0%nat) then 1%nat else 0%nat))
    as [target Ht]; [by destruct (decide _); lia|].
  rewrite Ht. step_env.
  destruct (TerminalClient.switch_to_session _ w t) as [[] t1];
    cbn [fst]; [|by exists app].
  eexists. split; [done|]. intros j. apply refocus_flags.
Qed.

(** X14: [action_delete_session] on a highlighted session never raises,
    whatever tmux answers and whatever else the registry holds, and it
    takes exactly one session out: up to focus flags and order, the
    registry afterwards and the session taken out make up the registry
    before, and the session taken out is like the highlighted one in
    every field other than the flag. *)
Theorem delete_session_takes_one (app : CactusApp) (i : nat)
    (session : Session) (w : World) (t : Trace) :
  sessions app !! i = Some session →
  ∃ app' removed,
    (CactusApp.action_delete_session (Some i) app w t).1 = Some app' ∧
    same_but_active removed session ∧
    set_is_active true <$> (removed :: sessions app')
      ≡ₚ set_is_active true <$> sessions app.
Proof.
  intros Hi. unfold CactusApp.action_delete_session.
  rewrite (highlighted_session_Some app i session Hi). step_env.
  destruct (switch_away_flags i session app w t Hi) as (app1 & Hsw & Hflags).
  destruct (CactusApp.switch_away i session app w t) as [r t1].
  cbn [fst] in Hsw. subst r. cbn [fst snd].
  destruct (flags_only_lookup _ _ i session Hflags Hi) as (x1 & Hx1 & Hsame).
  rewrite Hx1. cbn [option_bind]. unfold list_remove.
  destruct (list_index_found x1 (sessions app1) i Hx1) as (k & -> & Hk).
  cbn [option_bind fst]. exists (CactusApp._refresh_list
    (mkApp (delete k (sessions app1)) (hint app1))), x1.
  split; [done|]. split; [done|].
  cbn [sessions CactusApp._refresh_list].
  rewrite sort_sessions_perm, <- (flags_only_fmap _ _ Hflags).
  by rewrite <- (delete_Permutation _ _ _ Hk).
Qed.

Lemma delete_session_takes_one_witness :
  let w := example_world detached 0 [] in
  let twin := mkSession "api" "" "claude-api" "" READY false 0 in
  ∃ app' removed,
    (CactusApp.action_delete_session (Some 1%nat) (mkApp [twin; twin] "")
       w start).1 = Some app' ∧
    same_but_active removed twin ∧
    set_is_active true <$> (removed :: sessions app')
      ≡ₚ set_is_active true <$> [twin; twin].
Proof.
  intros w twin.
  exact (delete_session_takes_one (mkApp [twin; twin] "") 1 twin w start
           eq_refl).
Defined.

(** X15: the rename dialog and the rename action together: submitting a
    blank name, or the name the session has, changes nothing and issues
    no command; any other text renames exactly the highlighted session to
    the stripped text, its tmux name to that behind the prefix, with the
    one [rename-session] command from the old tmux name to the new. *)
Theorem rename_through_dialog (app : CactusApp) (i : nat) (session : Session)
    (name_value : string) (w : World) (t : Trace) :
  sessions app !! i = Some session →
  let new_name := Str.strip name_value in
  let out :=
    CactusApp.action_rename_session (Some i)
      (RenameSessionScreen.on_input_submitted name_value) app w t in
  if decide (new_name = "" ∨ new_name = name session) then out = (app, t)
  else
    sessions out.1
      ≡ₚ <[i := set_tmux_session_name ("claude-" +:+ new_name)
                  (set_name new_name session)]> (sessions app) ∧
    hint out.1 = "Renamed to: " +:+ new_name ∧
    out.2 = mkTrace
              (calls t ++ [["tmux"; "rename-session"; "-t";
                            tmux_session_name session;
                            "claude-" +:+ new_name]])
              (ticks t) (draws t).
Proof.
  intros Hi new_name. cbv zeta.
  unfold CactusApp.action_rename_session,
    RenameSessionScreen.on_input_submitted.
  rewrite (highlighted_session_Some app i session Hi). fold new_name.
  clearbody new_name.
  destruct (decide (new_name = "" ∨ new_name = name session)) as [Hno|Hyes].
  - destruct Hno as [->|Hsame]; [done|].
    destruct (Str.truthy new_name); [|done].
    by rewrite Hsame, bool_decide_eq_true_2, orb_true_r.
  - assert (Htruthy : Str.truthy new_name = true).
    { destruct new_name; [|done]. destruct Hyes. by left. }
    rewrite Htruthy. cbv iota beta. rewrite Htruthy.
    rewrite bool_decide_eq_false_2 by (intros ?; apply Hyes; by right).
    cbn [negb orb]. step_env. cbn [sessions hint CactusApp._refresh_list].
    split; [|split; reflexivity]. rewrite sort_sessions_perm.
    assert (alter (λ s, set_tmux_session_name ("claude-" +:+ new_name)
                          (set_name new_name s)) i (sessions app)
            = <[i := set_tmux_session_name ("claude-" +:+ new_name)
                       (set_name new_name session)]> (sessions app)) as ->;
      [|done].
    apply list_eq. intros j. destruct (decide (j = i)) as [->|Hne].
    + rewrite list_lookup_alter_eq, list_lookup_insert_eq
        by (by eapply lookup_lt_Some).
      by rewrite Hi.
    + by rewrite list_lookup_alter_ne, list_lookup_insert_ne.
Qed.

Lemma rename_through_dialog_witness :
  let w := example_world detached 0 [] in
  let api := mkSession "api" "" "claude-api" "" READY false 0 in
  CactusApp.action_rename_session (Some 0%nat)
    (RenameSessionScreen.on_input_submitted "  api ") (mkApp [api] "") w start
  = (mkApp [api] "", start).
Proof.
  intros w api.
  exact (rename_through_dialog (mkApp [api] "") 0 api "  api " w start
           eq_refl).
Defined.

(** ** Sessions found at startup *)

Lemma startswith_drop (n : string) :
  Str.startswith n "claude-" = true → n = "claude-" +:+ Str.str_drop 7 n.
Proof.
  unfold Str.startswith. intros (post & ->)%prefix_app. done.
Qed.

Lemma load_loop_found (names : list string) (l : list Session)
    (w : World) (t : Trace) :
  ∃ new,
    (CactusApp.load_loop names l w t).1 = l ++ new ∧
    tmux_session_name <$> new
      = filter (λ n, Is_true (Str.startswith n "claude-")) names ∧
    name <$> new
      = Str.str_drop 7
          <$> filter (λ n, Is_true (Str.startswith n "claude-")) names ∧
    Forall (λ s, handle_ok s ∧ is_active s = false ∧ path s = "") new.
Proof.
  revert l t.
  induction names as [|n names IH]; intros l t; cbn [CactusApp.load_loop].
  - exists []. by rewrite app_nil_r.
  - rewrite filter_cons.
    destruct (Str.startswith n "claude-") eqn:Hn.
    + step_env.
      destruct (IH (l ++ [mkSession (Str.str_drop 7 n) "" n "" READY false
                                    (clock w (ticks t))])
                   (mkTrace (calls t) (S (ticks t)) (draws t)))
        as (new & Hnew & Hnames & Hshort & Hall).
      eexists (_ :: new). rewrite Hnew, <- app_assoc. split; [done|].
      rewrite decide_True by done. split; [by rewrite fmap_cons, Hnames|].
      split; [by rewrite !fmap_cons, Hshort|].
      constructor; [|done].
      split; [|done]. unfold handle_ok. simpl. by apply startswith_drop.
    + rewrite decide_False by (intros []). apply IH.
Qed.

(** X16: [_load_existing_sessions] on the empty registry takes in
    exactly the sessions that tmux lists under a name starting with
    [claude-] and no other; each comes in unfocused, with an empty path
    and with the name that stands behind the prefix. *)
Theorem load_existing_sessions_found (w : World) (t : Trace) :
  let out := CactusApp._load_existing_sessions CactusApp.init w t in
  let found := filter (λ n, Is_true (Str.startswith n "claude-"))
                      (server_sessions w) in
  tmux_session_name <$> sessions out.1 ≡ₚ found ∧
  name <$> sessions out.1 ≡ₚ Str.str_drop 7 <$> found ∧
  Forall (λ s, handle_ok s ∧ is_active s = false ∧ path s = "")
         (sessions out.1).
Proof.
  cbv zeta. unfold CactusApp._load_existing_sessions. step_env.
  destruct (load_loop_found (server_sessions w) (sessions CactusApp.init) w t)
    as (new & Hnew & Hnames & Hshort & Hall).
  destruct (CactusApp.load_loop _ _ _ _) as [l t']. cbn [fst snd] in *.
  subst l. cbn [sessions CactusApp._refresh_list CactusApp.init app].
  rewrite sort_sessions_perm. rewrite <- Hshort, <- Hnames. done.
Qed.

(** ** What every operation keeps *)

Lemma mark_active_loop_flags (i : nat) (l : list Session) (j : nat) :
  set_is_active true <$> CactusApp.mark_active_loop i l !! j
  = set_is_active true <$> l !! j.
Proof.
  unfold CactusApp.mark_active_loop.
  set (f := λ (acc : list Session) (k : nat), _).
  assert (Hgen : ∀ ks acc,
    (∀ j, set_is_active true <$> acc !! j = set_is_active true <$> l !! j) →
    ∀ j, set_is_active true <$> foldl f acc ks !! j
         = set_is_active true <$> l !! j).
  { induction ks as [|k ks IH]; intros acc Hacc; [done|].
    cbn [foldl]. apply IH. intros j'. unfold f at 1.
    destruct (acc !! k) as [x|] eqn:Hk; [|done].
    destruct (acc !! i) as [y|]; [|done].
    destruct (decide (j' = k)) as [->|Hne].
    - rewrite list_lookup_insert_eq by (by eapply lookup_lt_Some).
      rewrite <- Hacc, Hk. done.
    - by rewrite list_lookup_insert_ne. }
  by apply Hgen.
Qed.

(** The ways in which an action can leave the list of sessions: as it
    was, or sorted. *)
Lemma action_sessions_sorted (app : CactusApp) (w : World) (t : Trace) :
  (∀ r file app' file', view_sorted (sessions app) →
     (CactusApp.action_new_session r app file w t).1 = Some (app', file') →
     view_sorted (sessions app')) ∧
  (∀ h n, view_sorted (sessions app) →
     view_sorted (sessions (CactusApp.action_rename_session h n app w t).1)) ∧
  (∀ h, view_sorted (sessions app) →
     view_sorted (sessions (CactusApp.action_switch_session h app w t).1)) ∧
  (∀ h app', view_sorted (sessions app) →
     (CactusApp.action_delete_session h app w t).1 = Some app' →
     view_sorted (sessions app')).
Proof.
  split; [|split; [|split]].
  - intros [r|] file app' file' Hs Hrun; [|by injection Hrun as <- _].
    apply action_new_session_sessions in Hrun as [_ ->].
    apply sort_sessions_sorted.
  - intros h n Hs. unfold CactusApp.action_rename_session.
    destruct (CactusApp.highlighted_session h app) as [[i session]|]; [|done].
    destruct n as [n|]; [|done]. destruct (_ || _); [done|].
    step_env. apply sort_sessions_sorted.
  - intros h Hs. unfold CactusApp.action_switch_session.
    destruct (CactusApp.highlighted_session h app) as [[i session]|]; [|done].
    step_env. destruct (TerminalClient.switch_to_session _ w t) as [[] t1];
      [|done].
    apply sort_sessions_sorted.
  - intros h app' Hs. unfold CactusApp.action_delete_session.
    destruct (CactusApp.highlighted_session h app) as [[i session]|];
      [|by intros [= <-]].
    step_env. destruct (CactusApp.switch_away i session app w t)
      as [[app1|] t1]; [|done].
    cbn [fst snd]. destruct (option_bind _ _ _ _) as [l|]; [|done].
    intros [= <-]. apply sort_sessions_sorted.
Qed.

Lemma keys_sorted (l l' : list Session) :
  Forall2 (λ a b, CactusApp.sort_key a = CactusApp.sort_key b) l l' →
  view_sorted l → view_sorted l'.
Proof.
  unfold view_sorted. intros Hkeys Hs. revert l' Hkeys.
  induction Hs as [|x l Hl IH Hx]; intros l' Hkeys.
  - apply Forall2_nil_inv_l in Hkeys as ->. constructor.
  - apply Forall2_cons_inv_l in Hkeys as (x' & l'' & Hxx & Hll & ->).
    constructor; [by apply IH|].
    clear IH Hl. induction Hll as [|y y' l l'' Hyy Hll IH]; [done|].
    inversion Hx as [|?? Hy Hx']; subst. constructor; [|by apply IH].
    unfold may_precede in *. by rewrite <- Hxx, <- Hyy.
Qed.

(** X17: the registry is always in view order: a registry sorted by
    priority and recency is left sorted by the startup scan, by a create
    that goes through, by rename, switch and delete, and by a poll tick,
    also by a tick that reports no change and so does not sort. *)
Theorem registry_stays_sorted (app : CactusApp) (w : World) (t : Trace) :
  view_sorted (sessions app) →
  view_sorted (sessions (CactusApp._load_existing_sessions app w t).1) ∧
  (∀ r file app' file',
     (CactusApp.action_new_session r app file w t).1 = Some (app', file') →
     view_sorted (sessions app')) ∧
  (∀ h n,
     view_sorted (sessions (CactusApp.action_rename_session h n app w t).1)) ∧
  (∀ h, view_sorted (sessions (CactusApp.action_switch_session h app w t).1)) ∧
  (∀ h app', (CactusApp.action_delete_session h app w t).1 = Some app' →
             view_sorted (sessions app')) ∧
  view_sorted (sessions (CactusApp._update_status app w t).1).
Proof.
  intros Hs.
  destruct (action_sessions_sorted app w t) as (Hnew & Hren & Hsw & Hdel).
  split; [|split; [|split; [|split; [|split]]]];
    [| intros; by eapply Hnew | by auto | by auto
     | intros; by eapply Hdel |].
  - unfold CactusApp._load_existing_sessions. step_env.
    destruct (CactusApp.load_loop _ _ _ _) as [l t']. cbn [fst].
    apply sort_sessions_sorted.
  - unfold CactusApp._update_status. step_env.
    destruct (TerminalClient.get_pane_map w t) as [pane_map t1].
    destruct (update_loop_identity pane_map (sessions app) w t1)
      as [_ Hkeys].
    destruct (CactusApp.update_loop pane_map (sessions app) w t1)
      as [[l []] t2]; cbn [fst snd] in *.
    + cbn [sessions CactusApp._refresh_list]. apply sort_sessions_sorted.
    + exact (keys_sorted _ _ (Hkeys eq_refl) Hs).
Qed.

Lemma registry_stays_sorted_witness :
  let w := example_world (attached "/dev/pts/0") 1700000090000000
                         ["claude-logs"] in
  let api := mkSession "api" "/srv/api" "claude-api" "Allow?" WAITING true
                       1700000060000000 in
  let web := mkSession "web" "/srv/web" "claude-web" "" READY false
                       1700000050000000 in
  let db := mkSession "db" "" "claude-db" "" READY false
                      1700000000000000 in
  let app := mkApp [api; web; db] "" in
  view_sorted (sessions app) ∧
  view_sorted (sessions (CactusApp._load_existing_sessions app w start).1) ∧
  (∀ r file app' file',
     (CactusApp.action_new_session r app file w start).1
       = Some (app', file') →
     view_sorted (sessions app')) ∧
  (∀ h n, view_sorted (sessions (CactusApp.action_rename_session h n
                                   app w start).1)) ∧
  (∀ h, view_sorted (sessions (CactusApp.action_switch_session h
                                 app w start).1)) ∧
  (∀ h app', (CactusApp.action_delete_session h app w start).1
             = Some app' → view_sorted (sessions app')) ∧
  view_sorted (sessions (CactusApp._update_status app w start).1).
Proof.
  intros w api web db app.
  assert (Hs : view_sorted (sessions app)) by (repeat constructor).
  split; [exact Hs|]. exact (registry_stays_sorted app w start Hs).
Defined.

Lemma handle_ok_flags (l l1 : list Session) :
  (∀ j, set_is_active true <$> l1 !! j = set_is_active true <$> l !! j) →
  Forall handle_ok l → Forall handle_ok l1.
Proof.
  intros Hflags Hl. apply Forall_lookup. intros j x1 Hj.
  specialize (Hflags j). rewrite Hj in Hflags.
  destruct (l !! j) as [x|] eqn:Hx; [|done].
  simpl in Hflags. apply (inj Some) in Hflags.
  pose proof (proj1 (Forall_lookup _ _) Hl j x Hx) as Hok.
  unfold handle_ok in *.
  apply (f_equal tmux_session_name) in Hflags as Ht.
  apply (f_equal name) in Hflags as Hn. simpl in Ht, Hn. congruence.
Qed.

Lemma handle_ok_alter (f : Session → Session) (i : nat) (l : list Session) :
  (∀ s, handle_ok s → handle_ok (f s)) →
  Forall handle_ok l → Forall handle_ok (alter f i l).
Proof.
  intros Hf Hl. apply Forall_lookup. intros j x Hj.
  destruct (decide (j = i)) as [->|Hne].
  - rewrite list_lookup_alter_eq in Hj.
    destruct (l !! i) as [y|] eqn:Hy; [|done]. injection Hj as <-.
    apply Hf. by apply (proj1 (Forall_lookup _ _) Hl i y).
  - rewrite list_lookup_alter_ne in Hj by done.
    by apply (proj1 (Forall_lookup _ _) Hl j x).
Qed.

(** X18: the tmux name of every session in the registry is its name
    behind the prefix [claude-]: the startup scan, a create that goes
    through, rename, switch, delete and the poll tick all keep it so. *)
Theorem registry_handles (app : CactusApp) (w : World) (t : Trace) :
  Forall handle_ok (sessions app) →
  Forall handle_ok (sessions (CactusApp._load_existing_sessions app w t).1) ∧
  (∀ r file app' file',
     (CactusApp.action_new_session r app file w t).1 = Some (app', file') →
     Forall handle_ok (sessions app')) ∧
  (∀ h n, Forall handle_ok
            (sessions (CactusApp.action_rename_session h n app w t).1)) ∧
  (∀ h, Forall handle_ok
          (sessions (CactusApp.action_switch_session h app w t).1)) ∧
  (∀ h app', (CactusApp.action_delete_session h app w t).1 = Some app' →
             Forall handle_ok (sessions app')) ∧
  Forall handle_ok (sessions (CactusApp._update_status app w t).1).
Proof.
  intros Hok. split; [|split; [|split; [|split; [|split]]]].
  - unfold CactusApp._load_existing_sessions. step_env.
    destruct (load_loop_found (server_sessions w) (sessions app) w t)
      as (new & Hnew & _ & _ & Hall).
    destruct (CactusApp.load_loop _ _ _ _) as [l t']. cbn [fst] in *.
    subst l. cbn [sessions CactusApp._refresh_list].
    rewrite sort_sessions_perm. apply Forall_app. split; [done|].
    eapply Forall_impl; [exact Hall|]. by intros s (? & _).
  - intros [r|] file app' file' Hrun; [|by injection Hrun as <- _].
    apply action_new_session_sessions in Hrun as [_ ->].
    rewrite sort_sessions_perm. apply Forall_app. split.
    + apply (handle_ok_flags (sessions app)); [|done]. intros j.
      rewrite list_lookup_fmap. by destruct (sessions app !! j).
    + by repeat constructor.
  - intros h n. unfold CactusApp.action_rename_session.
    destruct (CactusApp.highlighted_session h app) as [[i session]|]; [|done].
    destruct n as [n|]; [|done]. destruct (_ || _); [done|].
    step_env. cbn [fst sessions CactusApp._refresh_list].
    rewrite sort_sessions_perm. by apply handle_ok_alter.
  - intros h. unfold CactusApp.action_switch_session.
    destruct (CactusApp.highlighted_session h app) as [[i session]|]; [|done].
    step_env. destruct (TerminalClient.switch_to_session _ w t) as [[] t1];
      [|done].
    cbn [fst sessions CactusApp._refresh_list].
    rewrite sort_sessions_perm.
    apply handle_ok_alter.
    { intros s. unfold CactusApp.demote_ready. by destruct (decide _). }
    apply handle_ok_alter; [done|].
    apply (handle_ok_flags (sessions app)); [|done].
    intros j. apply mark_active_loop_flags.
  - intros h app'. unfold CactusApp.action_delete_session.
    destruct (CactusApp.highlighted_session h app) as [[i session]|] eqn:Hh;
      [|by intros [= <-]].
    assert (Hi : sessions app !! i = Some session).
    { unfold CactusApp.highlighted_session in Hh.
      destruct h as [i'|]; [|done]. simpl in Hh.
      destruct (sessions app !! i') eqn:Hi'; [|done]. by injection Hh as -> ->. }
    step_env.
    destruct (switch_away_flags i session app w t Hi)
      as (app1 & Hsw & Hflags).
    destruct (CactusApp.switch_away i session app w t) as [r t1].
    cbn [fst] in Hsw. subst r. cbn [fst snd].
    destruct (sessions app1 !! i) as [x1|]; [|done]. cbn [option_bind].
    unfold list_remove. destruct (list_index x1 (sessions app1)) as [k|];
      [|done].
    cbn [option_bind]. intros [= <-].
    cbn [sessions CactusApp._refresh_list]. rewrite sort_sessions_perm.
    apply Forall_delete. by apply (handle_ok_flags (sessions app)).
  - destruct (update_status_frame app w t) as (_ & l' & Hperm & Hframe).
    rewrite Hperm. clear Hperm.
    induction Hframe as [|x x' l l' Hx Hl IH]; [done|].
    inversion Hok as [|?? Hxok Hlok]; subst.
    constructor; [|by apply IH].
    unfold handle_ok in *. destruct Hx as (Hn & _ & Ht & _). congruence.
Qed.

Lemma registry_handles_witness :
  let w := example_world (attached "/dev/pts/0") 1700000090000000
                         ["claude-logs"] in
  let api := mkSession "api" "/srv/api" "claude-api" "Allow?" WAITING true
                       1700000060000000 in
  let web := mkSession "web" "/srv/web" "claude-web" "" READY false
                       1700000050000000 in
  let db := mkSession "db" "" "claude-db" "" READY false
                      1700000000000000 in
  let app := mkApp [api; web; db] "" in
  Forall handle_ok (sessions app) ∧
  Forall handle_ok
    (sessions (CactusApp._load_existing_sessions app w start).1) ∧
  (∀ r file app' file',
     (CactusApp.action_new_session r app file w start).1
       = Some (app', file') →
     Forall handle_ok (sessions app')) ∧
  (∀ h n, Forall handle_ok
            (sessions (CactusApp.action_rename_session h n app w start).1)) ∧
  (∀ h, Forall handle_ok
          (sessions (CactusApp.action_switch_session h app w start).1)) ∧
  (∀ h app', (CactusApp.action_delete_session h app w start).1
             = Some app' → Forall handle_ok (sessions app')) ∧
  Forall handle_ok (sessions (CactusApp._update_status app w start).1).
Proof.
  intros w api web db app.
  assert (Hok : Forall handle_ok (sessions app)) by (repeat constructor).
  split; [exact Hok|]. exact (registry_handles app w start Hok).
Defined.

(** ** Stripping *)

Lemma lstrip_head (s : string) :
  Str.lstrip s = "" ∨
  ∃ c s', Str.lstrip s = String c s' ∧ Str.isspace c = false.
Proof.
  induction s as [|c s IH]; [by left|]. cbn [Str.lstrip].
  destruct (Str.isspace c) eqn:Hc; [done|]. right. by exists c, s.
Qed.

Lemma rstrip_cons (c : ascii) (s : string) :
  Str.rstrip (String c s)
  = match Str.rstrip s with
    | EmptyString => if Str.isspace c then "" else String c ""
    | r => String c r
    end.
Proof. done. Qed.

Lemma rstrip_idem (s : string) : Str.rstrip (Str.rstrip s) = Str.rstrip s.
Proof.
  induction s as [|c s IH]; [done|]. rewrite rstrip_cons.
  destruct (Str.rstrip s) as [|d r] eqn:Hr.
  - destruct (Str.isspace c) eqn:Hc; [done|].
    rewrite rstrip_cons. cbn [Str.rstrip]. by rewrite Hc.
  - rewrite rstrip_cons, IH. done.
Qed.

Lemma rstrip_head (c : ascii) (s : string) :
  Str.isspace c = false → ∃ r, Str.rstrip (String c s) = String c r.
Proof.
  intros Hc. rewrite rstrip_cons. destruct (Str.rstrip s) as [|d r].
  - rewrite Hc. by eexists.
  - by eexists.
Qed.

Lemma strip_idem (s : string) : Str.strip (Str.strip s) = Str.strip s.
Proof.
  unfold Str.strip. destruct (lstrip_head s) as [->|(c & s' & -> & Hc)];
    [done|].
  destruct (rstrip_head c s' Hc) as [r Hr]. rewrite Hr.
  cbn [Str.lstrip]. rewrite Hc, <- Hr. apply rstrip_idem.
Qed.

Lemma random_name_stripped :
  Forall (λ adjective,
    Forall (λ noun, Str.strip (adjective +:+ "-" +:+ noun)
                    = adjective +:+ "-" +:+ noun) NOUNS) ADJECTIVES.
Proof. repeat constructor. Qed.

Lemma dialog_name (name_value : string) (w : World) (t : Trace) :
  let name := ((if Str.truthy (Str.strip name_value)
                then mret (Str.strip name_value)
                else generate_random_name) w t).1 in
  name ≠ "" ∧ Str.strip name = name.
Proof.
  cbv zeta. destruct (Str.strip name_value) as [|c v] eqn:Hv; cbn [Str.truthy].
  - unfold generate_random_name. step_env.
    destruct (random_choice_lookup ADJECTIVES w t) as (a & Ha & ->); [done|].
    destruct (random_choice_lookup NOUNS w
                (mkTrace (calls t) (ticks t) (S (draws t))))
      as (n & Hn & ->); [done|].
    cbn [fst]. split; [by destruct a|].
    apply list_elem_of_lookup_2 in Ha, Hn.
    pose proof (proj1 (Forall_forall _ _) random_name_stripped a Ha) as Hall.
    by apply (proj1 (Forall_forall _ _) Hall n Hn).
  - step_env. split; [done|]. rewrite <- Hv. apply strip_idem.
Qed.

Lemma dialog_name_drawn (name_value : string) (w : World) (t : Trace) :
  ∃ name t',
    (if Str.truthy (Str.strip name_value)
     then mret (Str.strip name_value)
     else generate_random_name) w t = (name, t') ∧
    dialog_named name_value w t t' name.
Proof.
  unfold dialog_named.
  destruct (Str.strip name_value) as [|c v] eqn:Hv; cbn [Str.truthy].
  - unfold generate_random_name. step_env.
    destruct (random_choice_lookup ADJECTIVES w t) as (a & Ha & ->); [done|].
    destruct (random_choice_lookup NOUNS w
                (mkTrace (calls t) (ticks t) (S (draws t))))
      as (n & Hn & ->); [done|].
    eexists _, _. split; [reflexivity|].
    rewrite decide_True by done. by exists a, n.
  - step_env. eexists _, _. split; [reflexivity|].
    by rewrite decide_False.
Qed.

(** X19: what the new-session dialog answers. Enter in the name field
    dismisses nothing and draws nothing. Enter in the path field answers
    the name typed, stripped, or a random name of two draws when nothing
    is left of it, and the path typed, stripped, or the home directory
    when nothing is left of it. The path picker answers the same name
    with the path picked, and nothing when nothing was picked. In every
    answer the name is not empty and carries no white space at either
    end. *)
Theorem new_session_dialog_result (input_id name_value path_value : string)
    (selected : option string) (w : World) (t : Trace) :
  NewSessionScreen.on_input_submitted "name" name_value path_value w t
    = (None, t) ∧
  (input_id ≠ "name" →
   ∃ r t',
     NewSessionScreen.on_input_submitted input_id name_value path_value w t
       = (Some r, t') ∧
     dialog_named name_value w t t' (result_name r) ∧
     result_path r = (if decide (Str.strip path_value = "") then "~"
                      else Str.strip path_value)) ∧
  match selected with
  | None => _show_path_picker selected name_value w t = (None, t)
  | Some sel =>
      if decide (sel = "")
      then _show_path_picker selected name_value w t = (None, t)
      else ∃ r t',
             _show_path_picker selected name_value w t = (Some r, t') ∧
             dialog_named name_value w t t' (result_name r) ∧
             result_path r = sel
  end ∧
  (∀ r, (NewSessionScreen.on_input_submitted input_id name_value path_value
           w t).1 = Some r →
        result_name r ≠ "" ∧ Str.strip (result_name r) = result_name r ∧
        result_path r ≠ "" ∧ Str.strip (result_path r) = result_path r) ∧
  (∀ r, (_show_path_picker selected name_value w t).1 = Some r →
        result_name r ≠ "" ∧ Str.strip (result_name r) = result_name r ∧
        selected = Some (result_path r) ∧ result_path r ≠ "").
Proof.
  split; [done|]. split; [|split; [|split]].
  - intros Hid. unfold NewSessionScreen.on_input_submitted.
    rewrite decide_False by done.
    destruct (dialog_name_drawn name_value w t) as (name & t' & Hpick & Hname).
    set (pick := if Str.truthy (Str.strip name_value)
                 then mret (Str.strip name_value)
                 else generate_random_name) in *.
    clearbody pick. step_env. rewrite Hpick.
    eexists _, _. split; [reflexivity|]. split; [exact Hname|].
    cbn [result_path]. by destruct (Str.strip path_value).
  - destruct selected as [sel|]; [|done].
    unfold _show_path_picker.
    destruct sel as [|c sel]; [done|]. cbn [Str.truthy].
    rewrite decide_False by done.
    destruct (dialog_name_drawn name_value w t) as (name & t' & Hpick & Hname).
    set (pick := if Str.truthy (Str.strip name_value)
                 then mret (Str.strip name_value)
                 else generate_random_name) in *.
    clearbody pick. step_env. rewrite Hpick.
    eexists _, _. split; [reflexivity|]. by split.
  - intros r. unfold NewSessionScreen.on_input_submitted.
    destruct (decide (input_id = "name")); [done|].
    pose proof (dialog_name name_value w t) as Hname. cbv zeta in Hname.
    set (pick := if Str.truthy (Str.strip name_value)
                 then mret (Str.strip name_value)
                 else generate_random_name) in *.
    clearbody pick. step_env. destruct (pick w t) as [name t1].
    cbn [fst] in *. intros [= <-]. cbn [result_name result_path].
    destruct Hname as [Hne Hstrip]. split; [done|]. split; [done|].
    destruct (Str.strip path_value) as [|c v] eqn:Hv; cbn [Str.truthy].
    + done.
    + split; [done|]. rewrite <- Hv. apply strip_idem.
  - intros r. unfold _show_path_picker.
    destruct selected as [sel|]; [|done].
    destruct (Str.truthy sel) eqn:Hsel; [|done].
    pose proof (dialog_name name_value w t) as Hname. cbv zeta in Hname.
    set (pick := if Str.truthy (Str.strip name_value)
                 then mret (Str.strip name_value)
                 else generate_random_name) in *.
    clearbody pick. step_env. destruct (pick w t) as [name t1].
    cbn [fst] in *. intros [= <-]. cbn [result_name result_path].
    destruct Hname as [Hne Hstrip]. split; [done|]. split; [done|].
    split; [done|]. by destruct sel.
Qed.

(** ** The time label *)

(** X20: [format_time_ago] reads the clock once and measures the time
    elapsed on the wall clock of the host, which is the time elapsed
    when the UTC offset is the same at both ends. It answers [now] for
    anything under a minute, a [last_visited] ahead of the clock
    included. Otherwise it answers a count of at least one and a unit,
    the largest of minutes, hours, days and weeks that the elapsed whole
    seconds reach: at most 59 minutes, 23 hours, 6 days, and weeks
    beyond. *)
Theorem format_time_ago_label (last_visited : Z) (w : World) (t : Trace) :
  let now := clock w (ticks t) in
  let secs := (local_time w now - local_time w last_visited)
                `quot` 1000000 in
  let out := format_time_ago last_visited w t in
  out.2 = mkTrace (calls t) (S (ticks t)) (draws t) ∧
  (utcoffset w now = utcoffset w last_visited →
   secs = (now - last_visited) `quot` 1000000) ∧
  (local_time w now < local_time w last_visited + 60000000 →
   out.1 = "now") ∧
  (secs < 60 → out.1 = "now") ∧
  (60 ≤ secs →
   ∃ n unit, out.1 = str_of_int n +:+ unit ∧ 1 ≤ n ∧
     (unit = "m" ∧ n = secs `div` 60 ∧ n ≤ 59 ∨
      unit = "h" ∧ n = secs `div` 3600 ∧ n ≤ 23 ∨
      unit = "d" ∧ n = secs `div` 86400 ∧ n ≤ 6 ∨
      unit = "w" ∧ n = secs `div` 604800)).
Proof.
  cbv zeta. unfold format_time_ago. step_env.
  set (now := clock w (ticks t)).
  set (secs := (local_time w now - local_time w last_visited)
                 `quot` 1000000).
  assert (Hsame : utcoffset w now = utcoffset w last_visited →
                  secs = (now - last_visited) `quot` 1000000).
  { intros Hoff. unfold secs, local_time. rewrite Hoff. f_equal. lia. }
  assert (Hfuture : local_time w now < local_time w last_visited + 60000000 →
                    secs < 60).
  { intros H. unfold secs.
    assert (Hle : (local_time w now - local_time w last_visited)
                    `quot` 1000000
                  ≤ 59999999 `quot` 1000000)
      by (apply Z.quot_le_mono; lia).
    change (59999999 `quot` 1000000) with 59 in Hle. lia. }
  destruct (secs <? 60) eqn:H0; [apply Z.ltb_lt in H0|apply Z.ltb_ge in H0].
  { split; [done|]. split; [done|]. split; [done|]. split; [done|].
    intros; lia. }
  destruct (secs <? 3600) eqn:H1; [apply Z.ltb_lt in H1|apply Z.ltb_ge in H1].
  { split; [done|]. split; [done|]. split; [intros ?%Hfuture; lia|].
    split; [intros; lia|].
    intros _. eexists _, _. split; [reflexivity|]. split.
    - apply Z.div_le_lower_bound; lia.
    - left. split; [done|]. split; [done|].
      apply Z.lt_succ_r, Z.div_lt_upper_bound; lia. }
  destruct (secs <? 86400) eqn:H2;
    [apply Z.ltb_lt in H2|apply Z.ltb_ge in H2].
  { split; [done|]. split; [done|]. split; [intros ?%Hfuture; lia|].
    split; [intros; lia|].
    intros _. eexists _, _. split; [reflexivity|]. split.
    - apply Z.div_le_lower_bound; lia.
    - right; left. split; [done|]. split; [done|].
      apply Z.lt_succ_r, Z.div_lt_upper_bound; lia. }
  destruct (secs <? 604800) eqn:H3;
    [apply Z.ltb_lt in H3|apply Z.ltb_ge in H3].
  { split; [done|]. split; [done|]. split; [intros ?%Hfuture; lia|].
    split; [intros; lia|].
    intros _. eexists _, _. split; [reflexivity|]. split.
    - apply Z.div_le_lower_bound; lia.
    - right; right; left. split; [done|]. split; [done|].
      apply Z.lt_succ_r, Z.div_lt_upper_bound; lia. }
  split; [done|]. split; [done|]. split; [intros ?%Hfuture; lia|].
  split; [intros; lia|].
  intros _. eexists _, _. split; [reflexivity|]. split.
  - apply Z.div_le_lower_bound; lia.
  - by right; right; right.
Qed.

(** Across a change of the UTC offset the label follows the wall clock:
    a session visited a quarter of an hour before the clocks go forward
    by an hour reads [1h] half an hour after they did, three quarters of
    an hour having passed. *)
Lemma format_time_ago_offset_change :
  let change := 1711846800000000 in
  let w := mkHost (λ _, mkCompleted 0 "") (λ _, change + 1800000000)
                  (λ _, 0%nat) [] id Some true true
                  (λ instant, if instant <? change then 3600000000
                              else 7200000000) in
  let last_visited := change - 900000000 in
  (clock w 0 - last_visited) `quot` 1000000 = 2700 ∧
  (format_time_ago last_visited w start).1 = "1h".
Proof. by vm_compute. Qed.

(** ** The path history *)

Lemma str_forall_app (f : ascii → bool) (a b : string) :
  str_forall f (a +:+ b) = str_forall f a && str_forall f b.
Proof.
  induction a as [|c a IH]; [done|].
  change (f c && str_forall f (a +:+ b)
          = f c && str_forall f a && str_forall f b).
  by rewrite IH, andb_assoc.
Qed.

Lemma str_forall_impl (f g : ascii → bool) (s : string) :
  (∀ c, f c = true → g c = true) →
  str_forall f s = true → str_forall g s = true.
Proof.
  intros Hfg. induction s as [|c s IH]; [done|]. cbn [str_forall].
  intros [Hc Hs]%andb_true_iff. by rewrite (Hfg c Hc), IH.
Qed.

Lemma universal_newlines_id (s : string) :
  str_forall (λ c, bool_decide (c ≠ Lines.CR)) s = true →
  Lines.universal_newlines s = s.
Proof.
  induction s as [|c s IH]; [done|]. cbn [str_forall].
  intros [Hc%bool_decide_eq_true Hs]%andb_true_iff.
  cbn [Lines.universal_newlines]. rewrite decide_False by done.
  by rewrite IH.
Qed.

Lemma splitlines_line (p rest : string) :
  str_forall (λ c, negb (Lines.is_linebreak c)) p = true →
  Lines.splitlines (p +:+ String LF rest) = p :: Lines.splitlines rest.
Proof.
  induction p as [|c p IH]; [done|]. cbn [str_forall].
  intros [Hc%negb_true_iff Hp]%andb_true_iff.
  change (String c p +:+ String LF rest)
    with (String c (p +:+ String LF rest)).
  cbn [Lines.splitlines]. rewrite Hc. by rewrite IH.
Qed.

Lemma splitlines_lines (s : string) :
  Forall (λ p, str_forall (λ c, negb (Lines.is_linebreak c)) p = true)
         (Lines.splitlines s).
Proof.
  assert (Hgen : ∀ n s, (String.length s ≤ n)%nat →
    Forall (λ p, str_forall (λ c, negb (Lines.is_linebreak c)) p = true)
           (Lines.splitlines s)).
  { clear s. induction n as [|n IH]; intros [|c s] Hlen; try done.
    { simpl in Hlen. lia. }
    simpl in Hlen. cbn [Lines.splitlines].
    destruct (Lines.is_linebreak c) eqn:Hc.
    - destruct (decide (c = Lines.CR)).
      + destruct s as [|d s]; [by repeat constructor|].
        simpl in Hlen. destruct (decide (d = LF)).
        * constructor; [done|]. apply IH. lia.
        * constructor; [done|]. apply IH. simpl. lia.
      + constructor; [done|]. apply IH. lia.
    - specialize (IH s ltac:(lia)).
      destruct (Lines.splitlines s) as [|p ps].
      + repeat constructor. cbn [str_forall]. by rewrite Hc.
      + inversion IH as [|?? Hp Hps]; subst.
        constructor; [|done]. cbn [str_forall]. by rewrite Hc, Hp. }
  by apply (Hgen (String.length s)).
Qed.

Lemma lstrip_forall (f : ascii → bool) (s : string) :
  str_forall f s = true → str_forall f (Str.lstrip s) = true.
Proof.
  induction s as [|c s IH]; [done|]. cbn [Str.lstrip].
  destruct (Str.isspace c); [|done]. cbn [str_forall].
  intros [_ Hs]%andb_true_iff. by apply IH.
Qed.

Lemma rstrip_forall (f : ascii → bool) (s : string) :
  str_forall f s = true → str_forall f (Str.rstrip s) = true.
Proof.
  induction s as [|c s IH]; [done|]. cbn [str_forall].
  intros [Hc Hs]%andb_true_iff. rewrite rstrip_cons.
  specialize (IH Hs). destruct (Str.rstrip s) as [|d r].
  - destruct (Str.isspace c); [done|]. cbn [str_forall]. by rewrite Hc.
  - cbn [str_forall] in *. by rewrite Hc, IH.
Qed.

(** X21: whatever the history file holds, every path that [load_paths]
    hands out is usable as a line of the file: it is not empty, has no
    white space at either end and no line end inside. A missing file and
    a file that fails to read give no paths. *)
Theorem load_paths_clean (file : PathsFile) :
  Forall clean_path (load_paths file) ∧
  load_paths Missing = [] ∧ load_paths Unreadable = [].
Proof.
  split; [|done]. destruct file as [| |content]; [done|done|].
  unfold load_paths. apply Forall_fmap, Forall_forall.
  intros line [Htruthy Hin]%list_elem_of_filter.
  pose proof (proj1 (Forall_forall _ _)
                (splitlines_lines (Lines.universal_newlines content))
                line Hin) as Hlb.
  split; [|split].
  - simpl. by destruct (Str.strip line).
  - apply strip_idem.
  - by apply rstrip_forall, lstrip_forall.
Qed.

Lemma write_paths_cons (x : string) (l : list string) :
  l ≠ [] →
  Str.join (String LF "") (x :: l) +:+ String LF ""
  = x +:+ String LF (Str.join (String LF "") l +:+ String LF "").
Proof.
  intros Hl. rewrite join_cons by done. by rewrite !str_app_assoc.
Qed.

Lemma splitlines_written (l : list string) :
  Forall clean_path l →
  let text := Str.join (String LF "") l +:+ String LF "" in
  l ≠ [] →
  str_forall (λ c, bool_decide (c ≠ Lines.CR)) text = true ∧
  Lines.splitlines text = l.
Proof.
  assert (Hcr : ∀ p, str_forall (λ c, negb (Lines.is_linebreak c)) p = true →
                     str_forall (λ c, bool_decide (c ≠ Lines.CR)) p = true).
  { intros p. apply str_forall_impl. intros c Hc.
    apply bool_decide_eq_true. intros ->. done. }
  induction 1 as [|x l (Hne & Hstrip & Hlb) Hl IH]; [done|]. intros text _.
  unfold text. destruct l as [|y l].
  - change (Str.join (String LF "") [x] +:+ String LF "")
      with (x +:+ String LF "").
    split; [|by apply splitlines_line].
    rewrite str_forall_app, (Hcr x Hlb). done.
  - rewrite write_paths_cons by done.
    destruct IH as [IHcr IHsplit]; [done|]. cbv zeta in IHcr, IHsplit.
    split.
    + rewrite str_forall_app, (Hcr x Hlb). cbn [str_forall andb].
      rewrite IHcr. done.
    + rewrite splitlines_line by done. by rewrite IHsplit.
Qed.

Lemma load_written (l : list string) :
  Forall clean_path l → l ≠ [] → load_paths (write_paths l) = l.
Proof.
  intros Hl Hne. unfold load_paths, write_paths.
  destruct (splitlines_written l Hl Hne) as [Hcr Hsplit].
  rewrite universal_newlines_id by done. rewrite Hsplit.
  clear Hcr Hsplit Hne. induction Hl as [|x l (Hne & Hstrip & _) Hl IH];
    [done|].
  rewrite filter_cons, decide_True.
  - rewrite fmap_cons. by rewrite Hstrip, IH.
  - rewrite Hstrip. by destruct x.
Qed.

(** X22: saving a usable path that the history does not know (no stored
    path resolves to the same place) puts it in front: [load_paths]
    afterwards gives the new path followed by the paths it gave before;
    deleting it again gives back the paths from before. *)
Theorem save_path_then_load (resolve : string → string) (path : string)
    (file : PathsFile) :
  clean_path path →
  Forall (λ p, resolve p ≠ resolve path) (load_paths file) →
  load_paths (save_path resolve path file) = path :: load_paths file ∧
  load_paths (delete_path path (save_path resolve path file))
    = load_paths file.
Proof.
  intros Hclean Hnew.
  assert (Hsave : save_path resolve path file
                  = write_paths (path :: load_paths file)).
  { unfold save_path.
    assert (existsb (λ p, bool_decide (resolve p = resolve path))
                    (load_paths file) = false) as ->; [|done].
    induction Hnew as [|p l Hp Hl IH]; [done|]. cbn [existsb].
    by rewrite bool_decide_eq_false_2, IH. }
  assert (Hload : load_paths (write_paths (path :: load_paths file))
                  = path :: load_paths file).
  { apply load_written; [|done]. constructor; [done|].
    apply load_paths_clean. }
  rewrite Hsave. split; [done|].
  unfold delete_path. rewrite Hload.
  rewrite decide_True by apply list_elem_of_here.
  cbn [remove_first]. rewrite decide_True by done.
  destruct (load_paths file) as [|q l] eqn:Hfile; [done|].
  rewrite <- Hfile. apply load_written; [apply load_paths_clean|].
  by rewrite Hfile.
Qed.

Lemma save_path_then_load_witness :
  let file := Text "/srv/api
" in
  load_paths (save_path id "/srv/web" file) = ["/srv/web"; "/srv/api"] ∧
  load_paths (delete_path "/srv/web" (save_path id "/srv/web" file))
    = ["/srv/api"].
Proof.
  intros file.
  apply (save_path_then_load id "/srv/web" file).
  - repeat split; done.
  - repeat constructor. discriminate.
Defined.

(** X23: saving a path that the history already knows, under the same
    or another spelling that resolves to the same place, leaves the file
    untouched; so saving a usable path twice is saving it once. *)
Theorem save_path_known (resolve : string → string) (path : string)
    (file : PathsFile) :
  (Exists (λ p, resolve p = resolve path) (load_paths file) →
   save_path resolve path file = file) ∧
  (clean_path path →
   save_path resolve path (save_path resolve path file)
   = save_path resolve path file).
Proof.
  assert (Hknown : ∀ f, Exists (λ p, resolve p = resolve path) (load_paths f) →
                        save_path resolve path f = f).
  { intros f Hex. unfold save_path.
    assert (existsb (λ p, bool_decide (resolve p = resolve path))
                    (load_paths f) = true) as ->; [|done].
    induction Hex as [p l Hp|p l Hl IH]; cbn [existsb].
    - by rewrite bool_decide_eq_true_2.
    - by rewrite IH, orb_true_r. }
  split; [apply Hknown|]. intros Hclean.
  destruct (decide (Exists (λ p, resolve p = resolve path) (load_paths file)))
    as [Hex|Hnew].
  - by rewrite !(Hknown file Hex).
  - apply Hknown. apply not_Exists_Forall in Hnew; [|intros ?; apply _].
    destruct (save_path_then_load resolve path file Hclean) as [-> _].
    + eapply Forall_impl; [exact Hnew|]. done.
    + by constructor.
Qed.

Lemma remove_first_absent (x : string) (l : list string) :
  x ∉ l → remove_first x l = l.
Proof.
  induction l as [|y l IH]; [done|]. intros Hx. cbn [remove_first].
  rewrite decide_False by (intros ->; apply Hx, list_elem_of_here).
  rewrite IH; [done|]. intros ?. apply Hx. by apply list_elem_of_further.
Qed.

Lemma remove_first_Forall (P : string → Prop) (x : string) (l : list string) :
  Forall P l → Forall P (remove_first x l).
Proof.
  induction 1 as [|y l Hy Hl IH]; [done|]. cbn [remove_first].
  destruct (decide (y = x)); [done|]. by constructor.
Qed.

(** X24: [delete_path] takes the first stored occurrence of the path out
    of the history and nothing else: [load_paths] afterwards gives the
    paths from before without it, in their order. A path that is not
    stored leaves the file untouched, and taking out the last stored path
    removes the file. *)
Theorem delete_path_then_load (path : string) (file : PathsFile) :
  load_paths (delete_path path file)
    = remove_first path (load_paths file) ∧
  (path ∉ load_paths file → delete_path path file = file) ∧
  (load_paths file = [path] → delete_path path file = Missing).
Proof.
  split; [|split].
  - unfold delete_path.
    destruct (decide (path ∈ load_paths file)) as [Hin|Hout].
    + destruct (remove_first path (load_paths file)) as [|q l] eqn:Hrem;
        [done|].
      rewrite <- Hrem. apply load_written; [|by rewrite Hrem].
      apply remove_first_Forall, load_paths_clean.
    + by rewrite remove_first_absent.
  - intros Hout. unfold delete_path. by rewrite decide_False.
  - intros Hone. unfold delete_path. rewrite Hone.
    rewrite decide_True by apply list_elem_of_here.
    cbn [remove_first]. by rewrite decide_True.
Qed.

(** X25: [save_path] never stores a second path for a place the history
    already has: if the stored paths resolve to pairwise different
    places, they still do after a usable path has been saved. *)
Theorem save_path_no_duplicates (resolve : string → string) (path : string)
    (file : PathsFile) :
  clean_path path →
  NoDup (resolve <$> load_paths file) →
  NoDup (resolve <$> load_paths (save_path resolve path file)).
Proof.
  intros Hclean Hnodup.
  destruct (decide (Exists (λ p, resolve p = resolve path) (load_paths file)))
    as [Hex|Hnew].
  - by rewrite (proj1 (save_path_known resolve path file) Hex).
  - apply not_Exists_Forall in Hnew; [|intros ?; apply _].
    destruct (save_path_then_load resolve path file Hclean) as [-> _].
    { eapply Forall_impl; [exact Hnew|]. done. }
    rewrite fmap_cons. apply NoDup_cons. split; [|done].
    intros (p & Hp & Hin)%list_elem_of_fmap.
    by apply (proj1 (Forall_forall _ _) Hnew p Hin).
Qed.

Lemma save_path_no_duplicates_witness :
  let file := Text "~/api
/srv/web
" in
  let resolve := λ p, if decide (p = "~/api") then "/home/u/api" else p in
  NoDup (resolve <$> load_paths (save_path resolve "/home/u/api" file)).
Proof.
  intros file resolve.
  apply (save_path_no_duplicates resolve "/home/u/api" file).
  - repeat split; done.
  - apply (bool_decide_unpack _). by vm_compute.
Defined.

(** On a host where every path resolves and the history can be written,
    [save_path] does not raise and is the function of the lemmas
    above. *)
Lemma known_place_total (resolve : string → string)
    (places : string → option string) (normalized : string)
    (existing : list string) :
  (∀ p, places p = Some (resolve p)) →
  known_place places normalized existing
  = Some (existsb (λ p, bool_decide (resolve p = normalized)) existing).
Proof.
  intros Hres. induction existing as [|p existing IH]; [done|].
  cbn [known_place existsb]. rewrite Hres.
  destruct (decide (resolve p = normalized)) as [Heq|Hne].
  - by rewrite bool_decide_eq_true_2.
  - by rewrite bool_decide_eq_false_2.
Qed.

Lemma save_path_raising_total (resolve : string → string) (w : World)
    (path : string) (file : PathsFile) :
  mkdir_ok w = true → write_ok w = true →
  (∀ p, resolve_path w p = Some (resolve p)) →
  save_path_raising w path file = Some (save_path resolve path file).
Proof.
  intros Hdir Hwrite Hres. unfold save_path_raising, save_path.
  rewrite Hdir, Hres, (known_place_total resolve _ _ _ Hres), Hwrite.
  by destruct (existsb _ _).
Qed.

(** ** Instances of the focus lemmas *)

Lemma switch_session_no_twin_witness :
  let api := mkSession "api" "" "claude-api" "" READY false 10 in
  let web := mkSession "web" "" "claude-web" "" WORKING true 20 in
  let w := example_world (attached "/dev/pts/0") 30 [] in
  let app' := (CactusApp.action_switch_session (Some 1%nat)
                 (mkApp [web; api] "") w start).1 in
  active_sessions (sessions app')
    = [mkSession "api" "" "claude-api" "" READ true 30] ∧
  hint app' = "Switched to: claude-api".
Proof.
  intros api web w.
  assert (Htwin : no_twin 1 [web; api]).
  { intros [|[|j]] s u Hne Hj Hi; [|done|done].
    injection Hj as <-. injection Hi as <-. discriminate. }
  pose proof (switch_session_no_twin (mkApp [web; api] "") 1 api w start
                eq_refl Htwin) as H.
  cbv zeta in H. destruct H as (_ & Hactive & Hhint). by split.
Defined.

Lemma delete_session_keeps_single_focus_witness :
  let twin := mkSession "api" "" "claude-api" "" READY false 10 in
  let w := example_world (attached "/dev/pts/0") 30 [] in
  let app' := mkApp [twin] "Switched to: claude-api" in
  (length (active_sessions [twin; twin]) ≤ 1)%nat ∧
  (CactusApp.action_delete_session (Some 1%nat) (mkApp [twin; twin] "")
     w start).1 = Some app' ∧
  (length (active_sessions (sessions app')) ≤ 1)%nat.
Proof.
  intros twin w app'.
  assert (Hone : (length (active_sessions [twin; twin]) ≤ 1)%nat)
    by (vm_compute; lia).
  assert (Hout : (CactusApp.action_delete_session (Some 1%nat)
                    (mkApp [twin; twin] "") w start).1 = Some app')
    by reflexivity.
  split; [exact Hone|]. split; [exact Hout|].
  exact (delete_session_keeps_single_focus (Some 1%nat)
           (mkApp [twin; twin] "") app' w start Hone Hout).
Defined.

(** ** The commands of a poll tick *)

Lemma update_one_calls (pane_map : gmap string string) (s : Session)
    (w : World) (t : Trace) :
  (CactusApp.update_one pane_map s w t).2
  = mkTrace
      (calls t ++
         match pane_map !! tmux_session_name s with
         | Some pane_id =>
             if Str.truthy pane_id
             then [["tmux"; "capture-pane"; "-p"; "-t"; pane_id]] else []
         | None => []
         end)
      (ticks t) (draws t).
Proof.
  unfold CactusApp.update_one.
  destruct (pane_map !! tmux_session_name s) as [pane_id|];
    [|rewrite app_nil_r; by destruct t].
  destruct (Str.truthy pane_id); [|rewrite app_nil_r; by destruct t].
  unfold TerminalClient.capture_pane. step_env.
  destruct (decide (returncode _ ≠ 0)); [done|]. cbn [fst snd].
  destruct (Str.split LF _); [done|].
  by destruct (detect_status _ _ _) as [? []].
Qed.

Lemma update_loop_calls (pane_map : gmap string string) (l : list Session)
    (w : World) (t : Trace) :
  (CactusApp.update_loop pane_map l w t).2
  = mkTrace
      (calls t ++
         omap (λ s, pane_id ← pane_map !! tmux_session_name s;
                    if Str.truthy pane_id
                    then Some ["tmux"; "capture-pane"; "-p"; "-t"; pane_id]
                    else None) l)
      (ticks t) (draws t).
Proof.
  revert t. induction l as [|s l IH]; intros t.
  - simpl. rewrite app_nil_r. by destruct t.
  - cbn [CactusApp.update_loop]. step_env.
    pose proof (update_one_calls pane_map s w t) as Hone.
    destruct (CactusApp.update_one pane_map s w t) as [[s' c] t1].
    specialize (IH t1).
    destruct (CactusApp.update_loop pane_map l w t1) as [[l' c'] t2].
    cbn [fst snd] in *. subst t1 t2. cbn [calls ticks draws omap list_omap].
    rewrite <- app_assoc. f_equal. f_equal.
    destruct (pane_map !! tmux_session_name s) as [pane_id|]; [|done].
    cbn [mbind option_bind]. by destruct (Str.truthy pane_id).
Qed.

(** X29: a poll tick lists the panes once and then captures at most one
    pane per session, in registry order: the pane mapped to the
    session's tmux name, when there is one and its id is not empty. It
    issues no other command and reads neither the clock nor the random
    source. *)
Theorem update_status_commands (app : CactusApp) (w : World) (t : Trace) :
  let pane_map := (TerminalClient.get_pane_map w t).1 in
  (CactusApp._update_status app w t).2
  = mkTrace
      (calls t ++
         ["tmux"; "list-panes"; "-a"; "-F"; "#{session_name} #{pane_id}"] ::
         omap (λ s, pane_id ← pane_map !! tmux_session_name s;
                    if Str.truthy pane_id
                    then Some ["tmux"; "capture-pane"; "-p"; "-t"; pane_id]
                    else None) (sessions app))
      (ticks t) (draws t).
Proof.
  cbv zeta. unfold CactusApp._update_status.
  assert (Hmap : (TerminalClient.get_pane_map w t).2
            = mkTrace (calls t ++ [["tmux"; "list-panes"; "-a"; "-F";
                                    "#{session_name} #{pane_id}"]])
                      (ticks t) (draws t)).
  { unfold TerminalClient.get_pane_map. step_env.
    by destruct (decide (returncode _ ≠ 0)). }
  step_env.
  destruct (TerminalClient.get_pane_map w t) as [pane_map t1].
  cbn [fst snd] in *. subst t1.
  pose proof (update_loop_calls pane_map (sessions app) w
                (mkTrace (calls t ++ [["tmux"; "list-panes"; "-a"; "-F";
                                       "#{session_name} #{pane_id}"]])
                         (ticks t) (draws t))) as Hloop.
  destruct (CactusApp.update_loop pane_map (sessions app) w _)
    as [[l changed] t2].
  cbn [fst snd calls ticks draws] in *. subst t2.
  rewrite <- app_assoc. by destruct changed.
Qed.
